(** * gocommit: the suggestion parser, the interactive selector and [main]

    A shallow embedding of [main.go]: [parseSuggestions], [normalizeMessages],
    [requestSuggestions] with the request it builds ([buildPrompt], the URL,
    the schema), the selector ([chooseMessage], [parseChoice], [promptEdit]),
    [envOr], and [main] with the [git] commands it runs ([ensureGitRepo],
    [stagedDiff], [stagedDiffStat], [gitCommit]) and [fatal].

    A Go [string] is a sequence of bytes: [list ascii].  A Go [int] is a [Z]
    (64 bits where the width matters), a [rune] is a [Z].  The library
    functions the program calls ([strings.TrimSpace], [strings.TrimLeft],
    [strings.TrimRight], [strings.Split], [strings.EqualFold], [fmt.Sscanf],
    [json.Unmarshal], [bufio.Reader.ReadString]) are modelled in the modules
    that precede the program.  What lies outside the program (the
    environment, [git], the inference server, standard input) is a [world],
    and a run of [main] records what it does to it as a trace of events. *)

From Stdlib Require Import ZArith Ascii String List Lia Bool DecimalString DecimalPos.
From stdpp Require Import base option list strings gmap.

Local Open Scope Z_scope.

#[local] Set Warnings "-register-all".

(** ** Bytes and strings *)

Abbreviation bytes := (list ascii).

(** The bytes of a literal. *)
Definition str (s : string) : bytes := list_ascii_of_string s.

Definition byteZ (c : ascii) : Z := Z.of_N (N_of_ascii c).

Definition byte_of_Z (z : Z) : ascii := ascii_of_N (Z.to_N z).

Definition NL : ascii := byte_of_Z 10.
Definition CR : ascii := byte_of_Z 13.
Definition TAB : ascii := byte_of_Z 9.
Definition QUOTE : ascii := byte_of_Z 34.

(** ** unicode/utf8 *)
Module Utf8.

Definition RuneError : Z := 0xFFFD.
Definition RuneSelf : Z := 0x80.
Definition UTFMax : Z := 4.

(** The [first] table with [acceptRanges]: for a leading byte at or above
    [RuneSelf], the length of the encoding and the range the second byte must
    lie in; [None] for the bytes marked [xx]. *)
Definition first (s0 : Z) : option (Z * Z * Z) :=
  if s0 <? 0xC2 then None
  else if s0 <=? 0xDF then Some (2, 0x80, 0xBF)
  else if s0 =? 0xE0 then Some (3, 0xA0, 0xBF)
  else if s0 <=? 0xEC then Some (3, 0x80, 0xBF)
  else if s0 =? 0xED then Some (3, 0x80, 0x9F)
  else if s0 <=? 0xEF then Some (3, 0x80, 0xBF)
  else if s0 =? 0xF0 then Some (4, 0x90, 0xBF)
  else if s0 <=? 0xF3 then Some (4, 0x80, 0xBF)
  else if s0 =? 0xF4 then Some (4, 0x80, 0x8F)
  else None.

Definition locb : Z := 0x80.
Definition hicb : Z := 0xBF.
Definition maskx : Z := 0x3F.
Definition mask2 : Z := 0x1F.
Definition mask3 : Z := 0x0F.
Definition mask4 : Z := 0x07.

(** [utf8.DecodeRuneInString]: the first rune of [s] and its width in bytes;
    [(RuneError, 0)] on the empty string, [(RuneError, 1)] on a byte that
    starts no valid encoding. *)
Definition DecodeRuneInString (s : bytes) : Z * nat :=
  match s with
  | [] => (RuneError, 0%nat)
  | c0 :: t0 =>
    let s0 := byteZ c0 in
    if s0 <? RuneSelf then (s0, 1%nat)
    else
      match first s0 with
      | None => (RuneError, 1%nat)
      | Some (sz, lo, hi) =>
        if Z.of_nat (length s) <? sz then (RuneError, 1%nat)
        else
          match t0 with
          | [] => (RuneError, 1%nat)
          | c1 :: t1 =>
            let s1 := byteZ c1 in
            if (s1 <? lo) || (hi <? s1) then (RuneError, 1%nat)
            else if sz <=? 2 then
              (Z.lor (Z.shiftl (Z.land s0 mask2) 6) (Z.land s1 maskx), 2%nat)
            else
              match t1 with
              | [] => (RuneError, 1%nat)
              | c2 :: t2 =>
                let s2 := byteZ c2 in
                if (s2 <? locb) || (hicb <? s2) then (RuneError, 1%nat)
                else if sz <=? 3 then
                  (Z.lor (Z.lor (Z.shiftl (Z.land s0 mask3) 12)
                                (Z.shiftl (Z.land s1 maskx) 6))
                         (Z.land s2 maskx), 3%nat)
                else
                  match t2 with
                  | [] => (RuneError, 1%nat)
                  | c3 :: _ =>
                    let s3 := byteZ c3 in
                    if (s3 <? locb) || (hicb <? s3) then (RuneError, 1%nat)
                    else
                      (Z.lor (Z.lor (Z.lor (Z.shiftl (Z.land s0 mask4) 18)
                                           (Z.shiftl (Z.land s1 maskx) 12))
                                    (Z.shiftl (Z.land s2 maskx) 6))
                             (Z.land s3 maskx), 4%nat)
                  end
              end
          end
      end
  end.

(** [utf8.RuneStart]: the byte is not a continuation byte. *)
Definition RuneStart (c : ascii) : bool :=
  negb (Z.land (byteZ c) 0xC0 =? 0x80).

(** The backward loop of [DecodeLastRuneInString]:
    [for start--; start >= lim; start-- { if RuneStart(s[start]) { break } }],
    entered with [start] already decremented; at most [UTFMax] rounds. *)
Fixpoint backToStart (rounds : nat) (s : bytes) (start lim : Z) : Z :=
  match rounds with
  | O => start
  | S k =>
    if start <? lim then start
    else
      match s !! Z.to_nat start with
      | Some c => if RuneStart c then start else backToStart k s (start - 1) lim
      | None => start
      end
  end.

(** [utf8.DecodeLastRuneInString]: the last rune of [s] and its width. *)
Definition DecodeLastRuneInString (s : bytes) : Z * nat :=
  let end_ := Z.of_nat (length s) in
  if end_ =? 0 then (RuneError, 0%nat)
  else
    let start := end_ - 1 in
    match s !! Z.to_nat start with
    | None => (RuneError, 0%nat)
    | Some c =>
      let r := byteZ c in
      if r <? RuneSelf then (r, 1%nat)
      else
        let lim := Z.max (end_ - UTFMax) 0 in
        let start := backToStart 4 s (start - 1) lim in
        let start := if start <? 0 then 0 else start in
        let '(r, size) := DecodeRuneInString (drop (Z.to_nat start) s) in
        if negb (start + Z.of_nat size =? end_) then (RuneError, 1%nat)
        else (r, size)
    end.

(** [utf8.EncodeRune] / [utf8.AppendRune]: the UTF-8 encoding of a rune;
    surrogates and runes out of range are written as [RuneError]. *)
Definition AppendRune (r : Z) : bytes :=
  let r := if (r <? 0) || (0x10FFFF <? r) || ((0xD800 <=? r) && (r <=? 0xDFFF))
           then RuneError else r in
  if r <=? 0x7F then [byte_of_Z r]
  else if r <=? 0x7FF then
    [byte_of_Z (Z.lor 0xC0 (Z.shiftr r 6));
     byte_of_Z (Z.lor 0x80 (Z.land r maskx))]
  else if r <=? 0xFFFF then
    [byte_of_Z (Z.lor 0xE0 (Z.shiftr r 12));
     byte_of_Z (Z.lor 0x80 (Z.land (Z.shiftr r 6) maskx));
     byte_of_Z (Z.lor 0x80 (Z.land r maskx))]
  else
    [byte_of_Z (Z.lor 0xF0 (Z.shiftr r 18));
     byte_of_Z (Z.lor 0x80 (Z.land (Z.shiftr r 12) maskx));
     byte_of_Z (Z.lor 0x80 (Z.land (Z.shiftr r 6) maskx));
     byte_of_Z (Z.lor 0x80 (Z.land r maskx))].

End Utf8.

(** ** unicode *)
Module Unicode.

(** [unicode.IsSpace]: the Latin-1 cases, then the [White_Space] table. *)
Definition IsSpace (r : Z) : bool :=
  if (0 <=? r) && (r <=? 0xFF) then
    ((0x09 <=? r) && (r <=? 0x0D)) || (r =? 0x20) || (r =? 0x85) || (r =? 0xA0)
  else
    (r =? 0x1680) || ((0x2000 <=? r) && (r <=? 0x200A)) || (r =? 0x2028)
    || (r =? 0x2029) || (r =? 0x202F) || (r =? 0x205F) || (r =? 0x3000).

End Unicode.


(** ** strings *)
Module GoStrings.

Import Utf8 Unicode.

(** The [asciiSpace] table: tab, newline, vertical tab, form feed, carriage
    return and space. *)
Definition asciiSpace (c : ascii) : bool :=
  let b := byteZ c in ((0x09 <=? b) && (b <=? 0x0D)) || (b =? 0x20).

(** [indexFunc(s, f, false)] as [TrimLeftFunc] uses it: the runes of [s] are
    decoded from the left (as [range] does) until one fails [f]; what is left
    from there on is returned, the empty string when every rune passes. *)
Fixpoint trimLeftRunes (fuel : nat) (f : Z -> bool) (s : bytes) : bytes :=
  match fuel with
  | O => []
  | S k =>
    match s with
    | [] => []
    | _ :: _ =>
      let '(r, w) := DecodeRuneInString s in
      if f r then trimLeftRunes k f (drop w s) else s
    end
  end.

(** [strings.TrimLeftFunc]. *)
Definition TrimLeftFunc (s : bytes) (f : Z -> bool) : bytes :=
  trimLeftRunes (length s) f s.

(** [lastIndexFunc(s, f, truth)]: the loop [for i := len(s); i > 0; ...],
    decoding the last rune of [s[0:i]]; [None] stands for [-1]. *)
Fixpoint lastIndexFunc_from (fuel : nat) (s : bytes) (f : Z -> bool)
    (truth : bool) (i : nat) : option nat :=
  match fuel with
  | O => None
  | S k =>
    if (i =? 0)%nat then None
    else
      let '(r, size) := DecodeLastRuneInString (take i s) in
      let i := (i - size)%nat in
      if Bool.eqb (f r) truth then Some i
      else lastIndexFunc_from k s f truth i
  end.

Definition lastIndexFunc (s : bytes) (f : Z -> bool) (truth : bool) : option nat :=
  lastIndexFunc_from (length s) s f truth (length s).

(** [strings.TrimRightFunc]: the end of the kept part is recomputed from the
    index of the last rune that fails [f]. *)
Definition TrimRightFunc (s : bytes) (f : Z -> bool) : bytes :=
  match lastIndexFunc s f false with
  | None => take 0 s
  | Some i =>
    match s !! i with
    | Some c =>
      if RuneSelf <=? byteZ c then
        let '(_, wid) := DecodeRuneInString (drop i s) in take (i + wid) s
      else take (i + 1) s
    | None => take (i + 1) s
    end
  end.

(** [strings.TrimFunc]. *)
Definition TrimFunc (s : bytes) (f : Z -> bool) : bytes :=
  TrimRightFunc (TrimLeftFunc s f) f.

(** The first loop of [TrimSpace]: leading bytes of [asciiSpace]. *)
Fixpoint skipAsciiSpace (s : bytes) : bytes :=
  match s with
  | c :: t => if asciiSpace c then skipAsciiSpace t else s
  | [] => []
  end.

(** [strings.TrimSpace]: the ASCII fast path from both ends, falling back to
    the rune-aware [TrimFunc] / [TrimRightFunc] with [unicode.IsSpace] at the
    first byte at or above [RuneSelf]. *)
Definition TrimSpace (s : bytes) : bytes :=
  let s1 := skipAsciiSpace s in
  match s1 with
  | [] => []
  | c :: _ =>
    if RuneSelf <=? byteZ c then TrimFunc s1 IsSpace
    else
      let r := skipAsciiSpace (reverse s1) in
      match r with
      | [] => []
      | d :: _ =>
        if RuneSelf <=? byteZ d then TrimRightFunc (reverse r) IsSpace
        else reverse r
      end
  end.

(** [strings.TrimLeft(s, cutset)] for a cutset of ASCII bytes (the only use
    in the program): leading bytes that occur in [cutset] are removed. *)
Fixpoint TrimLeft (s : bytes) (cutset : bytes) : bytes :=
  match s with
  | c :: t => if bool_decide (c ∈ cutset) then TrimLeft t cutset else s
  | [] => []
  end.

(** [strings.TrimRight(s, cutset)] for a cutset of ASCII bytes (in the
    program the cutset is "/"): the loop of [trimRightByte] and
    [trimRightASCII], which cuts the last byte off while it occurs in
    [cutset]; [fuel] bounds the rounds. *)
Fixpoint trimRightLoop (fuel : nat) (s : bytes) (cutset : bytes) : bytes :=
  match fuel with
  | O => s
  | S k =>
    match last s with
    | Some c =>
      if bool_decide (c ∈ cutset) then trimRightLoop k (take (length s - 1) s) cutset
      else s
    | None => s
    end
  end.

Definition TrimRight (s : bytes) (cutset : bytes) : bytes :=
  trimRightLoop (length s) s cutset.

(** [strings.Split(s, sep)] for a separator of one byte: the pieces between
    the occurrences of [sep]; one more piece than there are separators. *)
Fixpoint Split (s : bytes) (sep : ascii) : list bytes :=
  match s with
  | [] => [[]]
  | c :: t =>
    if bool_decide (c = sep) then [] :: Split t sep
    else
      match Split t sep with
      | piece :: rest => (c :: piece) :: rest
      | [] => [[c]]
      end
  end.

(** ASCII lower-casing of one byte. *)
Definition lowerASCII (c : ascii) : ascii :=
  let b := byteZ c in
  if (0x41 <=? b) && (b <=? 0x5A) then byte_of_Z (b + 0x20) else c.

(** [strings.EqualFold(s, t)] for an ASCII [t] none of whose letters has a
    case-fold partner outside ASCII (in the program [t] is "e", whose fold
    orbit is e, E): [s] equals [t] up to the case of ASCII letters. *)
Definition EqualFold (s t : bytes) : bool :=
  bool_decide (map lowerASCII s = map lowerASCII t).

End GoStrings.


(** ** Errors and results *)

(** A Go [error] value, by the way it was made. *)
Inductive error : Type :=
| errors_New (msg : string)                  (* errors.New(msg) *)
| Errorf_w (prefix : string) (cause : error) (* fmt.Errorf(prefix + ": %w", cause) *)
| Errorf_status (code : Z) (body : bytes)    (* fmt.Errorf("ollama error %d: %s", code, body) *)
| io_EOF                                     (* io.EOF *)
| io_failure (what : string)                 (* any other error of a reader *)
| scan_failure (what : string)               (* an error of fmt's scanner *)
| json_failure (what : string).              (* an error of encoding/json *)

(** What a call gives back: [(v, nil)], [(zero, err)], or a run-time panic. *)
Inductive result (A : Type) : Type :=
| Ok (v : A)
| Err (e : error)
| Panic (why : string).
Arguments Ok {A} v.
Arguments Err {A} e.
Arguments Panic {A} why.

(** [errors.Is(err, io.EOF)]: [err] is [io.EOF] or wraps it. *)
Fixpoint errors_Is_EOF (e : error) : bool :=
  match e with
  | io_EOF => true
  | Errorf_w _ cause => errors_Is_EOF cause
  | _ => false
  end.

(** [len] of a slice or string, as a Go [int]. *)
Definition len {A} (l : list A) : Z := Z.of_nat (length l).

(** ** The program: data *)

Record chatMessage : Type := { Role : bytes; Content : bytes }.

Record ollamaChatResponse : Type := { Message : chatMessage }.

Record suggestionsPayload : Type := { Messages : list bytes }.

(** ** encoding/json, as far as [suggestionsPayload] needs it *)
Module Json.

Import Utf8.

Inductive value : Type :=
| Null
| Bool (b : bool)
| Number (lit : bytes)
| String (s : bytes)
| Array (elems : list value)
| Object (members : list (bytes * value)).

(** The scanner's [isSpace]: space, tab, carriage return, newline. *)
Definition isSpace (c : ascii) : bool :=
  let b := byteZ c in (b =? 0x20) || (b =? 0x09) || (b =? 0x0D) || (b =? 0x0A).

Fixpoint skipSpace (s : bytes) : bytes :=
  match s with
  | c :: t => if isSpace c then skipSpace t else s
  | [] => []
  end.

Definition isDigit (c : ascii) : bool :=
  let b := byteZ c in (0x30 <=? b) && (b <=? 0x39).

Fixpoint spanDigits (s : bytes) : bytes * bytes :=
  match s with
  | c :: t => if isDigit c then let '(d, r) := spanDigits t in (c :: d, r) else ([], s)
  | [] => ([], [])
  end.

(** One or more digits. *)
Definition digits1 (s : bytes) : option (bytes * bytes) :=
  match spanDigits s with
  | ([], _) => None
  | (d, r) => Some (d, r)
  end.

(** A JSON number: an optional minus, then 0 or a digit other than 0 with
    more digits, then an optional fraction (a point and digits) and an
    optional exponent (e or E, an optional sign, digits). *)
Definition scanNumber (s : bytes) : option (bytes * bytes) :=
  let '(sign, s) :=
    match s with
    | c :: t => if byteZ c =? 0x2D then ([c], t) else ([], s)
    | [] => ([], s)
    end in
  let int :=
    match s with
    | c :: t => if byteZ c =? 0x30 then Some ([c], t) else digits1 s
    | [] => None
    end in
  match int with
  | None => None
  | Some (ip, s) =>
    let frac :=
      match s with
      | c :: t =>
        if byteZ c =? 0x2E then
          match digits1 t with
          | Some (d, r) => Some (c :: d, r)
          | None => None
          end
        else Some ([], s)
      | [] => Some ([], s)
      end in
    match frac with
    | None => None
    | Some (fp, s) =>
      match s with
      | c :: t =>
        if (byteZ c =? 0x65) || (byteZ c =? 0x45) then
          let '(esign, t) :=
            match t with
            | c' :: t' =>
              if (byteZ c' =? 0x2B) || (byteZ c' =? 0x2D) then ([c'], t') else ([], t)
            | [] => ([], t)
            end in
          match digits1 t with
          | Some (d, r) => Some (sign ++ ip ++ fp ++ c :: esign ++ d, r)
          | None => None
          end
        else Some (sign ++ ip ++ fp, s)
      | [] => Some (sign ++ ip ++ fp, s)
      end
    end
  end.

Definition hexVal (c : ascii) : option Z :=
  let b := byteZ c in
  if (0x30 <=? b) && (b <=? 0x39) then Some (b - 0x30)
  else if (0x61 <=? b) && (b <=? 0x66) then Some (b - 0x61 + 10)
  else if (0x41 <=? b) && (b <=? 0x46) then Some (b - 0x41 + 10)
  else None.

(** [getu4]: the rune of a leading [\uXXXX], if [s] starts with one. *)
Definition getu4 (s : bytes) : option Z :=
  match s with
  | b :: u :: h1 :: h2 :: h3 :: h4 :: _ =>
    if (byteZ b =? 0x5C) && (byteZ u =? 0x75) then
      match hexVal h1, hexVal h2, hexVal h3, hexVal h4 with
      | Some a, Some b, Some c, Some d => Some (a * 4096 + b * 256 + c * 16 + d)
      | _, _, _, _ => None
      end
    else None
  | _ => None
  end.

(** [utf16.DecodeRune]. *)
Definition utf16_DecodeRune (r1 r2 : Z) : Z :=
  if (0xD800 <=? r1) && (r1 <? 0xDC00) && (0xDC00 <=? r2) && (r2 <? 0xE000)
  then Z.lor (Z.shiftl (r1 - 0xD800) 10) (r2 - 0xDC00) + 0x10000
  else RuneError.

Definition simpleEscape (c : ascii) : option ascii :=
  let b := byteZ c in
  if (b =? 0x22) || (b =? 0x5C) || (b =? 0x2F) then Some c
  else if b =? 0x62 then Some (byte_of_Z 0x08)
  else if b =? 0x66 then Some (byte_of_Z 0x0C)
  else if b =? 0x6E then Some (byte_of_Z 0x0A)
  else if b =? 0x72 then Some (byte_of_Z 0x0D)
  else if b =? 0x74 then Some (byte_of_Z 0x09)
  else None.

(** A string literal after its opening quote, scanned and unquoted at once:
    escapes are replaced, surrogate pairs joined, a lone surrogate and every
    byte that is no valid UTF-8 become U+FFFD; a raw control character ends
    the scan with an error. *)
Fixpoint scanString (fuel : nat) (s : bytes) (acc : bytes) : option (bytes * bytes) :=
  match fuel with
  | O => None
  | S k =>
    match s with
    | [] => None
    | c :: t =>
      let b := byteZ c in
      if b =? 0x22 then Some (acc, t)
      else if b =? 0x5C then
        match t with
        | [] => None
        | e :: t' =>
          match simpleEscape e with
          | Some x => scanString k t' (acc ++ [x])
          | None =>
            match getu4 s with
            | None => None
            | Some rr =>
              let after := drop 6 s in
              if (0xD800 <=? rr) && (rr <? 0xE000) then
                let dec := utf16_DecodeRune rr (default (-1) (getu4 after)) in
                if negb (dec =? RuneError)
                then scanString k (drop 6 after) (acc ++ AppendRune dec)
                else scanString k after (acc ++ AppendRune RuneError)
              else scanString k after (acc ++ AppendRune rr)
            end
          end
        end
      else if b <? 0x20 then None
      else if b <? RuneSelf then scanString k t (acc ++ [c])
      else
        let '(rr, size) := DecodeRuneInString s in
        scanString k (drop size s) (acc ++ AppendRune rr)
    end
  end.

Fixpoint hasPrefix (p s : bytes) : option bytes :=
  match p, s with
  | [], _ => Some s
  | a :: p', b :: s' => if bool_decide (a = b) then hasPrefix p' s' else None
  | _ :: _, [] => None
  end.

(** The scanner's [maxNestingDepth]. *)
Definition maxNestingDepth : Z := 10000.

(** A JSON value at the head of [s], with what follows it; [depth] counts the
    arrays and objects that are open. *)
Fixpoint parseValue (fuel : nat) (depth : Z) (s : bytes) : option (value * bytes) :=
  match fuel with
  | O => None
  | S k =>
    match skipSpace s with
    | [] => None
    | c :: t =>
      let b := byteZ c in
      if b =? 0x7B then
        if maxNestingDepth <? depth + 1 then None
        else
          match skipSpace t with
          | c' :: t' =>
            if byteZ c' =? 0x7D then Some (Object [], t')
            else
              match parseMembers k (depth + 1) t [] with
              | Some (ms, r) => Some (Object ms, r)
              | None => None
              end
          | [] => None
          end
      else if b =? 0x5B then
        if maxNestingDepth <? depth + 1 then None
        else
          match skipSpace t with
          | c' :: t' =>
            if byteZ c' =? 0x5D then Some (Array [], t')
            else
              match parseElements k (depth + 1) t [] with
              | Some (vs, r) => Some (Array vs, r)
              | None => None
              end
          | [] => None
          end
      else if b =? 0x22 then
        match scanString (length t) t [] with
        | Some (x, r) => Some (String x, r)
        | None => None
        end
      else if b =? 0x6E then
        match hasPrefix (str "null") (c :: t) with
        | Some r => Some (Null, r)
        | None => None
        end
      else if b =? 0x74 then
        match hasPrefix (str "true") (c :: t) with
        | Some r => Some (Bool true, r)
        | None => None
        end
      else if b =? 0x66 then
        match hasPrefix (str "false") (c :: t) with
        | Some r => Some (Bool false, r)
        | None => None
        end
      else
        match scanNumber (c :: t) with
        | Some (lit, r) => Some (Number lit, r)
        | None => None
        end
    end
  end
with parseElements (fuel : nat) (depth : Z) (s : bytes) (acc : list value)
    : option (list value * bytes) :=
  match fuel with
  | O => None
  | S k =>
    match parseValue k depth s with
    | None => None
    | Some (v, r) =>
      match skipSpace r with
      | c :: t =>
        if byteZ c =? 0x2C then parseElements k depth t (acc ++ [v])
        else if byteZ c =? 0x5D then Some (acc ++ [v], t)
        else None
      | [] => None
      end
    end
  end
with parseMembers (fuel : nat) (depth : Z) (s : bytes) (acc : list (bytes * value))
    : option (list (bytes * value) * bytes) :=
  match fuel with
  | O => None
  | S k =>
    match skipSpace s with
    | q :: t =>
      if byteZ q =? 0x22 then
        match scanString (length t) t [] with
        | None => None
        | Some (key, r) =>
          match skipSpace r with
          | c :: t1 =>
            if byteZ c =? 0x3A then
              match parseValue k depth t1 with
              | None => None
              | Some (v, r1) =>
                match skipSpace r1 with
                | c' :: t2 =>
                  if byteZ c' =? 0x2C then parseMembers k depth t2 (acc ++ [(key, v)])
                  else if byteZ c' =? 0x7D then Some (acc ++ [(key, v)], t2)
                  else None
                | [] => None
                end
              end
            else None
          | [] => None
          end
        end
      else None
    | [] => None
    end
  end.

(** [checkValid]: the whole of [data] is one JSON value between blanks. *)
Definition parse (data : bytes) : option value :=
  match parseValue (2 * length data + 2) 0 data with
  | Some (v, rest) =>
    match skipSpace rest with
    | [] => Some v
    | _ :: _ => None
    end
  | None => None
  end.

(** [foldName] on a member's key, as far as the field name [messages] can
    tell: ASCII letters are upper-cased and U+017F (the long s, bytes C5 BF),
    the one letter outside ASCII whose fold orbit meets the name, becomes S. *)
Fixpoint foldName (key : bytes) : bytes :=
  match key with
  | [] => []
  | c :: t =>
    let b := byteZ c in
    if (0x61 <=? b) && (b <=? 0x7A) then byte_of_Z (b - 0x20) :: foldName t
    else
      match t with
      | d :: t' =>
        if (b =? 0xC5) && (byteZ d =? 0xBF) then byte_of_Z 0x53 :: foldName t'
        else c :: foldName t
      | [] => [c]
      end
  end.

Definition typeError : error := json_failure "cannot unmarshal into Go value".

(** The elements of a JSON array stored over the slice [old]: a string is
    stored, [null] leaves the element as it is (the old element at that index
    when the field was filled before, the empty string otherwise), anything
    else is a type error and leaves the element too. *)
Fixpoint storeElements (i : nat) (old : list bytes) (elems : list value)
    : list bytes * option error :=
  match elems with
  | [] => ([], None)
  | e :: rest =>
    let '(out, err) := storeElements (S i) old rest in
    match e with
    | String s => (s :: out, err)
    | Null => (default [] (old !! i) :: out, err)
    | _ => (default [] (old !! i) :: out, Some typeError)
    end
  end.

(** A member's value decoded into the field [Messages]. *)
Definition storeMessages (old : list bytes) (v : value) : list bytes * option error :=
  match v with
  | Null => ([], None)
  | Array elems => storeElements 0 old elems
  | _ => (old, Some typeError)
  end.

Definition storeMember (st : suggestionsPayload * option error) (m : bytes * value)
    : suggestionsPayload * option error :=
  let '(payload, saved) := st in
  let '(key, v) := m in
  if bool_decide (foldName key = str "MESSAGES") then
    let '(msgs, err) := storeMessages (Messages payload) v in
    ({| Messages := msgs |}, match saved with Some e => Some e | None => err end)
  else st.

(** [json.Unmarshal(data, &payload)] for a zero [payload]: a syntax error
    leaves the payload alone; an object fills the field from each member
    whose key folds to [messages], in order; [null] does nothing; any other
    value is a type error. *)
Definition Unmarshal (data : bytes) : suggestionsPayload * option error :=
  match parse data with
  | None => ({| Messages := [] |}, Some (json_failure "invalid character"))
  | Some Null => ({| Messages := [] |}, None)
  | Some (Object members) => foldl storeMember ({| Messages := [] |}, None) members
  | Some _ => ({| Messages := [] |}, Some typeError)
  end.

End Json.

(** ** The suggestion parser *)

(** The loop of [normalizeMessages]: [out] and the [seen] map after one more
    message; a key that is absent from [seen] reads as [false]. *)
Definition normalizeStep (st : list bytes * gmap bytes bool) (m : bytes)
    : list bytes * gmap bytes bool :=
  let '(out, seen) := st in
  let m := GoStrings.TrimSpace m in
  if bool_decide (m = []) || default false (seen !! m) then (out, seen)
  else (out ++ [m], <[m := true]> seen).

Definition normalizeMessages (msgs : list bytes) : list bytes :=
  fst (foldl normalizeStep ([], ∅) msgs).

(** The cutset of the fallback: "-0123456789. ". *)
Definition bulletCutset : bytes := str "-0123456789. ".

(** The fallback loop of [parseSuggestions] over the lines, [msgs] being the
    slice appended to. *)
Definition fallbackStep (msgs : list bytes) (line : bytes) : list bytes :=
  let line := GoStrings.TrimSpace (GoStrings.TrimLeft line bulletCutset) in
  if bool_decide (line = []) then msgs else msgs ++ [line].

Definition fallbackLines (content : bytes) : list bytes :=
  foldl fallbackStep [] (GoStrings.Split content NL).

Section Parser.

(** [json.Unmarshal([]byte(content), &payload)] on a zero [payload]: the
    payload after the call, and the error returned ([None] for [nil]). *)
Variable Unmarshal : bytes -> suggestionsPayload * option error.

Definition parseSuggestions (content : bytes) : result (list bytes) :=
  let content := GoStrings.TrimSpace content in
  if bool_decide (content = []) then Err (errors_New "empty response from model")
  else
    let '(payload, err) := Unmarshal content in
    if bool_decide (err = None) && (0 <? len (Messages payload)) then
      Ok (normalizeMessages (Messages payload))
    else
      let msgs := fallbackLines content in
      if len msgs =? 0 then Err (errors_New "could not parse suggestions")
      else Ok (normalizeMessages msgs).

(** What [requestSuggestions] sees of the inference server: the request could
    not be marshalled or sent, or a response came back with its status, its
    body, and what [dec.Decode(&out)] makes of that body. *)
Inductive exchange : Type :=
| MarshalFails (e : error)
| PostFails (e : error)
| Response (StatusCode : Z) (body : bytes) (decoded : error + ollamaChatResponse).

(** [msgs[:n]]. *)
Definition sliceTo {A} (l : list A) (n : Z) : result (list A) :=
  if (n <? 0) || (len l <? n) then Panic "slice bounds out of range"
  else Ok (take (Z.to_nat n) l).

Definition requestSuggestions (n : Z) (x : exchange) : result (list bytes) :=
  match x with
  | MarshalFails e => Err (Errorf_w "marshal request" e)
  | PostFails e => Err (Errorf_w "ollama request" e)
  | Response StatusCode body decoded =>
    if 400 <=? StatusCode then
      Err (Errorf_status StatusCode (GoStrings.TrimSpace body))
    else
      match decoded with
      | inl e => Err (Errorf_w "decode response" e)
      | inr out =>
        match parseSuggestions (Content (Message out)) with
        | Ok msgs => if n <? len msgs then sliceTo msgs n else Ok msgs
        | Err e => Err e
        | Panic why => Panic why
        end
      end
  end.

(** The clamp of the [-n] flag in [main]. *)
Definition clampCount (count : Z) : Z :=
  let count := if count <? 1 then 1 else count in
  if 3 <? count then 3 else count.

(** [main] from the flag to the suggestions it shows: the clamp, the request,
    and the check that some suggestion came back. *)
Definition mainSuggestions (count : Z) (x : exchange) : result (list bytes) :=
  match requestSuggestions (clampCount count) x with
  | Ok msgs =>
    if len msgs =? 0 then Err (errors_New "no suggestions returned") else Ok msgs
  | r => r
  end.

End Parser.


(** ** fmt *)
Module Fmt.

Import Utf8 Unicode.

(** [ss.SkipSpace] for [Sscanf] (a newline is no space there): runes are
    read while they are spaces; a newline is an error; the first rune that
    is no space is put back.  The scanner's own [isSpace] table lists the
    runes of [unicode.IsSpace].  The error values of the scanner are told
    apart by cause only. *)
Fixpoint SkipSpace (fuel : nat) (s : bytes) : error + bytes :=
  match fuel with
  | O => inr s
  | S k =>
    match s with
    | [] => inr []
    | _ :: _ =>
      let '(r, w) := DecodeRuneInString s in
      let rest := drop w s in
      if (r =? 0x0D) && bool_decide (head rest = Some NL) then SkipSpace k rest
      else if r =? 0x0A then inl (scan_failure "unexpected newline")
      else if negb (IsSpace r) then inr s
      else SkipSpace k rest
    end
  end.

(** [ss.accept(ok)] for a set of ASCII bytes: the next rune is consumed when
    it is in the set. *)
Definition accept (ok : bytes) (s : bytes) : bytes * bytes :=
  match s with
  | c :: t => if bool_decide (c ∈ ok) then ([c], t) else ([], s)
  | [] => ([], s)
  end.

Definition sign : bytes := str "+-".
Definition decimalDigits : bytes := str "0123456789".

(** [for s.accept(digits) {}]: the digits at the head of [s]. *)
Fixpoint acceptAll (ok : bytes) (s : bytes) : bytes * bytes :=
  match s with
  | c :: t =>
    if bool_decide (c ∈ ok) then let '(d, r) := acceptAll ok t in (c :: d, r)
    else ([], s)
  | [] => ([], [])
  end.

Definition digitsValue (ds : bytes) : Z :=
  foldl (fun acc c => acc * 10 + (byteZ c - 0x30)) 0 ds.

(** [strconv.ParseInt(tok, 10, 64)] on a token made of an optional sign and
    decimal digits: the value, or a range error outside 64 bits. *)
Definition ParseInt (tok : bytes) : result Z :=
  let '(neg, ds) :=
    match tok with
    | c :: t =>
      if byteZ c =? 0x2B then (false, t)
      else if byteZ c =? 0x2D then (true, t)
      else (false, tok)
    | [] => (false, tok)
    end in
  let un := digitsValue ds in
  if neg then
    if 2 ^ 63 <? un then Err (scan_failure "value out of range") else Ok (- un)
  else
    if 2 ^ 63 <=? un then Err (scan_failure "value out of range") else Ok un.

(** [fmt.Sscanf(s, "%d", &n)] with [n] an [int] of 64 bits: [Ok n] when the
    error is [nil].  Blanks are skipped, an optional sign and then one or
    more decimal digits are read; what follows the digits is left unread and
    is no error.  (The scanner reads at most 2^30 runes; longer inputs are
    outside this model.) *)
Definition Sscanf_d (s : bytes) : result Z :=
  match SkipSpace (length s) s with
  | inl e => Err e
  | inr s =>
    match SkipSpace (length s) s with
    | inl e => Err e
    | inr s =>
      match s with
      | [] => Err (scan_failure "unexpected EOF")
      | _ :: _ =>
        let '(sg, s) := accept sign s in
        match s with
        | [] => Err (scan_failure "unexpected EOF")
        | _ :: _ =>
          match acceptAll decimalDigits s with
          | ([], _) => Err (scan_failure "expected integer")
          | (ds, _) => ParseInt (sg ++ ds)
          end
        end
      end
    end
  end.

(** The verb [%d] of [Printf]. *)
Definition itoa (n : Z) : bytes := str (NilZero.string_of_int (Z.to_int n)).

End Fmt.

(** ** The interactive selector *)

Definition parseChoice (s : bytes) (max : Z) : result Z :=
  if len s =? 0 then Err (errors_New "empty")
  else
    match Fmt.Sscanf_d s with
    | Err e => Err e
    | Panic why => Panic why
    | Ok n =>
      if (n <? 1) || (max <? n) then Err (errors_New "out of range")
      else Ok (n - 1)
    end.

(** Standard input and output as the selector uses them: how many calls of
    [reader.ReadString] were made, and the bytes printed so far. *)
Record console : Type := { reads : nat; stdout : bytes }.

Definition Print (s : bytes) (c : console) : console :=
  {| reads := reads c; stdout := stdout c ++ s |}.

Definition Println (s : bytes) (c : console) : console := Print (s ++ [NL]) c.

(** [if err != nil && !errors.Is(err, io.EOF)]: the error that makes the read
    a failure, if it is one. *)
Definition readFailure (err : option error) : option error :=
  match err with
  | Some e => if errors_Is_EOF e then None else Some e
  | None => None
  end.

(** [msgs[idx]]. *)
Definition index {A} (l : list A) (i : Z) : result A :=
  if i <? 0 then Panic "index out of range"
  else
    match l !! Z.to_nat i with
    | Some x => Ok x
    | None => Panic "index out of range"
    end.

Section Selector.

(** [stdin k] is what the call number [k] of [reader.ReadString('\n')] gives
    back, data and error ([None] for [nil]); both loops read through the one
    reader. *)
Variable stdin : nat -> bytes * option error.

Definition ReadString (c : console) : bytes * option error * console :=
  (stdin (reads c), {| reads := S (reads c); stdout := stdout c |}).

(** The loop of [promptEdit], run for at most [fuel] rounds; [None] when the
    rounds are used up with the loop still going. *)
Fixpoint promptEditLoop (fuel : nat) (c : console) : option (result bytes * console) :=
  match fuel with
  | O => None
  | S k =>
    let c := Print (str "> ") c in
    let '(line, err, c) := ReadString c in
    match readFailure err with
    | Some e => Some (Err (Errorf_w "read input" e), c)
    | None =>
      let line := GoStrings.TrimSpace line in
      if bool_decide (line = []) then promptEditLoop k c
      else Some (Ok line, c)
    end
  end.

Definition promptEdit (fuel : nat) (c : console) : option (result bytes * console) :=
  promptEditLoop fuel (Println (str "Enter commit message:") c).

(** The loop of [chooseMessage]; the rounds left go on to [promptEdit]. *)
Fixpoint chooseLoop (fuel : nat) (msgs : list bytes) (c : console)
    : option (result bytes * console) :=
  match fuel with
  | O => None
  | S k =>
    let c := Print (str "> ") c in
    let '(line, err, c) := ReadString c in
    match readFailure err with
    | Some e => Some (Err (Errorf_w "read input" e), c)
    | None =>
      let line := GoStrings.TrimSpace line in
      if GoStrings.EqualFold line (str "e") then promptEdit k c
      else if bool_decide (line = []) then chooseLoop k msgs c
      else
        match parseChoice line (len msgs) with
        | Ok idx =>
          match index msgs idx with
          | Ok m => Some (Ok m, c)
          | Err e => Some (Err e, c)
          | Panic why => Some (Panic why, c)
          end
        | _ => chooseLoop k msgs (Println (str "Invalid choice. Try again.") c)
        end
    end
  end.

(** The listing [chooseMessage] prints first: a line [i+1. m] for each
    message. *)
Fixpoint printSuggestions (i : Z) (msgs : list bytes) (c : console) : console :=
  match msgs with
  | [] => c
  | m :: rest =>
    printSuggestions (i + 1) rest
      (Print (Fmt.itoa (i + 1) ++ str ". " ++ m ++ [NL]) c)
  end.

Definition chooseMessage (fuel : nat) (msgs : list bytes) (c : console)
    : option (result bytes * console) :=
  let c := Println (str "Suggestions:") c in
  let c := printSuggestions 0 msgs c in
  let c := Println (str "Choose 1-3 or type 'e' to edit:") c in
  chooseLoop fuel msgs c.

End Selector.

(** A reader over a finite input: the lines of [data], each with its newline,
    then what is left without one together with [io.EOF], and [io.EOF] with
    no data from then on. *)
Fixpoint linesOf (data : bytes) (cur : bytes) : list bytes :=
  match data with
  | [] => match cur with [] => [] | _ :: _ => [cur] end
  | c :: t =>
    if bool_decide (c = NL) then (cur ++ [c]) :: linesOf t [] else linesOf t (cur ++ [c])
  end.

Definition stdinOf (data : bytes) (k : nat) : bytes * option error :=
  match linesOf data [] !! k with
  | Some l => (l, if bool_decide (last l = Some NL) then None else Some io_EOF)
  | None => ([], Some io_EOF)
  end.

Definition console0 : console := {| reads := 0; stdout := [] |}.


(** The bytes of a literal in which an apostrophe stands for a double quote
    (for JSON texts). *)
Definition jstr (s : string) : bytes :=
  map (fun c => if bool_decide (c = "'"%char) then QUOTE else c) (str s).

(** ** The program as a whole *)

(** [envOr], over [os.Getenv] (which gives the empty string for a variable
    that is not set). *)
Definition envOr (Getenv : bytes -> bytes) (key fallback : bytes) : bytes :=
  let v := GoStrings.TrimSpace (Getenv key) in
  if bool_decide (v <> []) then v else fallback.

(** [err.Error()]: the text of an error.  An error of a library has the text
    it carries. *)
Fixpoint Error (e : error) : bytes :=
  match e with
  | errors_New msg => str msg
  | Errorf_w prefix cause => str prefix ++ str ": " ++ Error cause
  | Errorf_status code body =>
    str "ollama error " ++ Fmt.itoa code ++ str ": " ++ body
  | io_EOF => str "EOF"
  | io_failure what => str what
  | scan_failure what => str what
  | json_failure what => str what
  end.

Module Req.

(** The [Format] field holds Go maps, a slice, strings and ints; it is given
    as the JSON value it stands for, the members of a map in the order of
    their keys. *)
Record ollamaChatRequest : Type := {
  Model : bytes;
  Messages : list chatMessage;
  Stream : bool;
  Format : Json.value
}.

End Req.

(** [buildPrompt]; both arguments are formatted with [%s]. *)
Definition buildPrompt (diff stat : bytes) : bytes :=
  str "You MUST only describe the staged diff. Do NOT invent changes. " ++
  str "Use imperative present tense. One line per suggestion. " ++
  str "If changes are only comments/whitespace/formatting, say so explicitly. " ++
  jstr "Return ONLY JSON with shape {'messages': ['...']}." ++ [NL; NL] ++
  str "Staged diff stat:" ++ [NL] ++ stat ++ [NL; NL] ++
  str "Staged diff:" ++ [NL] ++ diff.

(** The [format] of the request body in [requestSuggestions]. *)
Definition formatSchema (n : Z) : Json.value :=
  Json.Object
    [ (str "properties",
       Json.Object
         [ (str "messages",
            Json.Object
              [ (str "items", Json.Object [ (str "type", Json.String (str "string")) ]);
                (str "maxItems", Json.Number (Fmt.itoa n));
                (str "minItems", Json.Number (Fmt.itoa 1));
                (str "type", Json.String (str "array")) ]) ]);
      (str "required", Json.Array [ Json.String (str "messages") ]);
      (str "type", Json.String (str "object")) ].

(** [reqBody] in [requestSuggestions]. *)
Definition chatRequest (model : bytes) (n : Z) (diff stat : bytes)
    : Req.ollamaChatRequest :=
  {| Req.Model := model;
     Req.Messages :=
       [ {| Role := str "system";
            Content := str "You write concise git commit messages." |};
         {| Role := str "user"; Content := buildPrompt diff stat |} ];
     Req.Stream := false;
     Req.Format := formatSchema n |}.

(** [url] in [requestSuggestions]. *)
Definition chatURL (endpoint : bytes) : bytes :=
  GoStrings.TrimRight endpoint (str "/") ++ str "/api/chat".

(** The command line after a [flag.Parse] that went through: the value of
    each flag that was given. *)
Record flags : Type := {
  endpointFlag : option bytes;
  modelFlag : option bytes;
  nFlag : option Z;
  timeoutFlag : option Z
}.

(** What the program meets outside itself.
    - [Getenv]: the environment.
    - [revParse]: what [cmd.Run()] returns for [git rev-parse --git-dir], whose
      output is discarded.
    - [diffStaged], [diffStat]: for [git diff --staged] and
      [git diff --staged --stat], the content of the buffer that takes both
      output streams of the command, and what [cmd.Run()] returns.
    - [server]: what comes of the request, given the URL, the request body
      and the timeout.
    - [stdin]: the reads from standard input, as for the selector.
    - [commit]: for [git commit -m message], what the command writes to
      standard output and to standard error, and what [cmd.Run()] returns. *)
Record world : Type := {
  Getenv : bytes -> bytes;
  revParse : option error;
  diffStaged : bytes * option error;
  diffStat : bytes * option error;
  server : bytes -> Req.ollamaChatRequest -> Z -> exchange;
  stdin : nat -> bytes * option error;
  commit : bytes -> bytes * bytes * option error
}.

(** What the program does to the outside: a [git] command run with its
    arguments, a POST of a request body to a URL with a client timeout. *)
Inductive event : Type :=
| Git (args : list bytes)
| HttpPost (url : bytes) (req : Req.ollamaChatRequest) (timeout : Z).

(** The state of a run: the console, what was written to standard error, and
    the events so far. *)
Record process : Type := { con : console; stderr : bytes; trace : list event }.

(** How a run ends: [os.Exit(code)] or the return from [main] (code 0), or a
    run-time panic. *)
Inductive status : Type :=
| Exited (code : Z)
| Panicked (why : string).

Definition run (e : event) (p : process) : process :=
  {| con := con p; stderr := stderr p; trace := trace p ++ [e] |}.

(** [fatal]: [fmt.Fprintln(os.Stderr, "error:", err)], then [os.Exit(1)]. *)
Definition fatal (err : error) (p : process) : status * process :=
  (Exited 1,
   {| con := con p;
      stderr := stderr p ++ str "error: " ++ Error err ++ [NL];
      trace := trace p |}).

Section Program.

Variable Unmarshal : bytes -> suggestionsPayload * option error.
Variable w : world.

Definition ensureGitRepo (p : process) : option error * process :=
  let p := run (Git [str "rev-parse"; str "--git-dir"]) p in
  match revParse w with
  | Some _ => (Some (errors_New "not a git repository"), p)
  | None => (None, p)
  end.

Definition stagedDiff (p : process) : bytes * option error * process :=
  let p := run (Git [str "diff"; str "--staged"]) p in
  let '(out, err) := diffStaged w in
  match err with
  | Some e => ([], Some (Errorf_w "git diff --staged failed" e), p)
  | None => (out, None, p)
  end.

Definition stagedDiffStat (p : process) : bytes * option error * process :=
  let p := run (Git [str "diff"; str "--staged"; str "--stat"]) p in
  let '(out, err) := diffStat w in
  match err with
  | Some e => ([], Some (Errorf_w "git diff --staged --stat failed" e), p)
  | None => (out, None, p)
  end.

(** [gitCommit]: the command writes to the standard streams of the
    program. *)
Definition gitCommit (message : bytes) (p : process) : option error * process :=
  let '(out, errout, err) := commit w message in
  (err,
   {| con := Print out (con p);
      stderr := stderr p ++ errout;
      trace := trace p ++ [Git [str "commit"; str "-m"; message]] |}).

(** [main], from after [flag.Parse]; the selector runs for at most [fuel]
    rounds, and [None] is a run that is still reading then.  The request is
    posted unless its body could not be marshalled. *)
Definition main (a : flags) (fuel : nat) (p : process) : option (status * process) :=
  let defaultEndpoint :=
    envOr (Getenv w) (str "OLLAMA_ENDPOINT") (str "http://localhost:11434") in
  let defaultModel := envOr (Getenv w) (str "OLLAMA_MODEL") (str "llama3.1") in
  let endpoint := default defaultEndpoint (endpointFlag a) in
  let model := default defaultModel (modelFlag a) in
  let count := default 3 (nFlag a) in
  let timeout := default (30 * 1000000000) (timeoutFlag a) in
  let '(err, p) := ensureGitRepo p in
  match err with
  | Some e => Some (fatal e p)
  | None =>
    let '(diff, err, p) := stagedDiff p in
    match err with
    | Some e => Some (fatal e p)
    | None =>
      if bool_decide (GoStrings.TrimSpace diff = []) then
        Some (fatal (errors_New "no staged changes (git diff --staged is empty)") p)
      else
        let '(stat, err, p) := stagedDiffStat p in
        match err with
        | Some e => Some (fatal e p)
        | None =>
          let url := chatURL endpoint in
          let req := chatRequest model (clampCount count) diff stat in
          let x := server w url req timeout in
          let p :=
            match x with
            | MarshalFails _ => p
            | _ => run (HttpPost url req timeout) p
            end in
          match mainSuggestions Unmarshal count x with
          | Err e => Some (fatal e p)
          | Panic why => Some (Panicked why, p)
          | Ok msgs =>
            match chooseMessage (stdin w) fuel msgs (con p) with
            | None => None
            | Some (r, c) =>
              let p := {| con := c; stderr := stderr p; trace := trace p |} in
              match r with
              | Err e => Some (fatal e p)
              | Panic why => Some (Panicked why, p)
              | Ok chosen =>
                let '(err, p) := gitCommit chosen p in
                match err with
                | Some e => Some (fatal e p)
                | None =>
                  Some (Exited 0,
                        {| con := Println (str "Committed: " ++ chosen) (con p);
                           stderr := stderr p;
                           trace := trace p |})
                end
              end
            end
          end
        end
    end
  end.

End Program.

(** The state a run starts in. *)
Definition process0 : process := {| con := console0; stderr := []; trace := [] |}.

(** ** The specification's words, as definitions *)

(** Exact duplicates collapse to the first occurrence, the order of what is
    kept unchanged ([remove_dups] keeps the last occurrence of each element). *)
Definition dedupFirst (l : list bytes) : list bytes :=
  reverse (remove_dups (reverse l)).

(** Normalization as the specification words it: trim each entry, drop the
    empty entries, drop exact duplicates (the first occurrence wins). *)
Definition normalizeSpec (msgs : list bytes) : list bytes :=
  dedupFirst (filter (fun m => m <> []) (GoStrings.TrimSpace <$> msgs)).

(** One line of the fallback: leading bullet and numbering characters
    stripped, then whitespace trimmed. *)
Definition stripLine (line : bytes) : bytes :=
  GoStrings.TrimSpace (GoStrings.TrimLeft line bulletCutset).

(** The lines of a text, stripped, the empty results left out. *)
Definition strippedLines (content : bytes) : list bytes :=
  filter (fun l => l <> []) (stripLine <$> GoStrings.Split content NL).

(** Every rune of [s] is white space ([fuel] bounds the number of runes). *)
Fixpoint spaceRunes (fuel : nat) (s : bytes) : bool :=
  match s with
  | [] => true
  | _ :: _ =>
    match fuel with
    | O => false
    | S k =>
      let '(r, w) := Utf8.DecodeRuneInString s in
      Unicode.IsSpace r && spaceRunes k (drop w s)
    end
  end.

(** The text is empty or consists of white space only. *)
Definition whitespaceOnly (s : bytes) : bool := spaceRunes (length s) s.

(** A numeric token: an optional sign, one or more decimal digits, and
    nothing else; its value. *)
Definition numericToken (t : bytes) : option Z :=
  let '(sg, rest) := Fmt.accept Fmt.sign t in
  match Fmt.acceptAll Fmt.decimalDigits rest with
  | (d :: ds, []) =>
    Some (if bool_decide (sg = str "-") then - Fmt.digitsValue (d :: ds)
          else Fmt.digitsValue (d :: ds))
  | _ => None
  end.

(** A suggestion list as the data model has it: no entry twice, every entry
    not empty and without white space around it. *)
Definition wellFormedSuggestions (msgs : list bytes) : Prop :=
  NoDup msgs /\ Forall (fun m => m <> [] /\ GoStrings.TrimSpace m = m) msgs.

(** A byte that stands for itself in a JSON string: printable ASCII other
    than the double quote and the backslash. *)
Definition plainByte (c : ascii) : bool :=
  let b := byteZ c in
  (0x20 <=? b) && (b <? 0x7F) && negb (b =? 0x22) && negb (b =? 0x5C).

(** A text of plain bytes as a JSON string literal. *)
Definition quoted (s : bytes) : bytes := QUOTE :: s ++ [QUOTE].

Fixpoint commaSeparated (l : list bytes) : bytes :=
  match l with
  | [] => []
  | [x] => quoted x
  | x :: rest => quoted x ++ str "," ++ commaSeparated rest
  end.

(** The JSON object [{"messages":[...]}] with the entries [l]. *)
Definition encodeMessages (l : list bytes) : bytes :=
  jstr "{'messages':[" ++ commaSeparated l ++ str "]}".

(** The console after one round's prompt and read. *)
Definition afterRead (c : console) : console :=
  {| reads := S (reads c); stdout := stdout c ++ str "> " |}.

(** [e] is the read error of a call of [ReadString] made between [c] and
    [c']: that call gave an error other than [io.EOF], which [e] wraps. *)
Definition readError (stdin : nat -> bytes * option error) (c c' : console)
    (e : error) : Prop :=
  exists k line cause,
    (reads c <= k < reads c')%nat /\ stdin k = (line, Some cause) /\
    errors_Is_EOF cause = false /\ e = Errorf_w "read input" cause.

(** ** Runs of the program, in words *)


(** What [main] computes from the flags and the world before it asks the
    server: the values of the flags, and the request. *)
Section Request.
Variable w : world.
Variable a : flags.

Definition endpointOf : bytes :=
  default (envOr (Getenv w) (str "OLLAMA_ENDPOINT") (str "http://localhost:11434"))
          (endpointFlag a).

Definition modelOf : bytes :=
  default (envOr (Getenv w) (str "OLLAMA_MODEL") (str "llama3.1")) (modelFlag a).

Definition countOf : Z := default 3 (nFlag a).

Definition timeoutOf : Z := default (30 * 1000000000) (timeoutFlag a).

Definition requestOf : Req.ollamaChatRequest :=
  chatRequest modelOf (clampCount countOf) (diffStaged w).1 (diffStat w).1.

(** The request as an event, and what the server makes of it. *)
Definition postOf : event := HttpPost (chatURL endpointOf) requestOf timeoutOf.

Definition answerOf : exchange := server w (chatURL endpointOf) requestOf timeoutOf.

End Request.

(** The [git] commands of a run. *)
Definition gitRevParse : event := Git [str "rev-parse"; str "--git-dir"].
Definition gitDiff : event := Git [str "diff"; str "--staged"].
Definition gitDiffStat : event := Git [str "diff"; str "--staged"; str "--stat"].
Definition gitCommitOf (message : bytes) : event := Git [str "commit"; str "-m"; message].

(** An ASCII byte that is no white space. *)
Definition visible (c : ascii) : bool :=
  (byteZ c <? Utf8.RuneSelf) && negb (GoStrings.asciiSpace c).

(** A one-line text that begins with a visible byte outside the cutset of
    the fallback and ends with a visible byte, as "add x" does. *)
Definition plainSubject (t : bytes) : bool :=
  match head t, last t with
  | Some c, Some d =>
    visible c && negb (bool_decide (c ∈ bulletCutset)) && visible d &&
    negb (bool_decide (NL ∈ t))
  | _, _ => false
  end.

(** The lines [bullet ++ text] of a bulleted or numbered list, with a newline
    between one line and the next. *)
Fixpoint bulleted (items : list (bytes * bytes)) : bytes :=
  match items with
  | [] => []
  | [(b, t)] => b ++ t
  | (b, t) :: rest => b ++ t ++ [NL] ++ bulleted rest
  end.

(** An item of such a list: the bullet is made of bytes of the cutset, the
    text is a plain subject. *)
Definition bulletItem (it : bytes * bytes) : Prop :=
  Forall (fun c => c ∈ bulletCutset) it.1 /\ plainSubject it.2 = true.

(** A world for the examples: [git rev-parse] gives [rev], the staged diff
    is [diff], the server gives [answer], the user types [input], and
    [git commit] succeeds and writes nothing. *)
Definition worldWith (rev : option error) (diff : bytes) (answer : exchange)
    (input : bytes) : world :=
  {| Getenv := fun _ => [];
     revParse := rev;
     diffStaged := (diff, None);
     diffStat := (str " f | 1 +", None);
     server := fun _ _ _ => answer;
     stdin := stdinOf input;
     commit := fun _ => ([], [], None) |}.

(** A response with the status 200 and the given content. *)
Definition answered (content : bytes) : exchange :=
  Response 200 []
    (inr {| Message := {| Role := str "assistant"; Content := content |} |}).

(** The world in which the server answers with two suggestions. *)
Definition exampleWorld (rev : option error) (diff input : bytes) : world :=
  worldWith rev diff (answered (jstr "{'messages':['add x','fix y']}")) input.

(** A command line without flags. *)
Definition noFlags : flags :=
  {| endpointFlag := None; modelFlag := None; nFlag := None; timeoutFlag := None |}.

(** The run in which the user types 2. *)
Definition exampleRun : world := exampleWorld None (str "+line") (str "2" ++ [NL]).

(** The state that run ends in. *)
Definition exampleEnd : process :=
  {| con := {| reads := 1;
               stdout := str "Suggestions:" ++ [NL] ++ str "1. add x" ++ [NL] ++
                         str "2. fix y" ++ [NL] ++
                         str "Choose 1-3 or type 'e' to edit:" ++ [NL] ++
                         str "> " ++ str "Committed: fix y" ++ [NL] |};
     stderr := [];
     trace := [gitRevParse; gitDiff; gitDiffStat; postOf exampleRun noFlags;
               gitCommitOf (str "fix y")] |}.


(** ** Predicates of the proofs *)

(** [s] is not empty and its first rune is no white space. *)
Definition clean_start (s : bytes) : Prop :=
  s <> [] /\ Unicode.IsSpace (Utf8.DecodeRuneInString s).1 = false.

(** [s] is not empty and its last rune is no white space. *)
Definition clean_end (s : bytes) : Prop :=
  s <> [] /\ Unicode.IsSpace (Utf8.DecodeLastRuneInString s).1 = false.

(** The index [i] is the end of [u] or the place of a byte that starts a
    rune. *)
Definition at_rune_start (u : bytes) (i : nat) : Prop :=
  i = length u \/ exists c, u !! i = Some c /\ Utf8.RuneStart c = true.

(** [s] decodes, from the left, into white space runes only. *)
Inductive Blank : bytes -> Prop :=
| Blank_nil : Blank []
| Blank_rune s r w :
    s <> [] -> Utf8.DecodeRuneInString s = (r, w) -> Unicode.IsSpace r = true ->
    Blank (drop w s) -> Blank s.

(** * Proofs *)

Import Utf8 Unicode GoStrings.

Arguments DecodeRuneInString : simpl never.
Arguments DecodeLastRuneInString : simpl never.

(** ** Bytes and runes *)

Lemma byteZ_range c : 0 <= byteZ c < 256.
Proof. unfold byteZ. pose proof (N_ascii_bounded c). lia. Qed.

Ltac each_byte c := destruct c as [[] [] [] [] [] [] [] []].

Lemma RuneStart_spec c :
  RuneStart c = negb ((0x80 <=? byteZ c) && (byteZ c <=? 0xBF)).
Proof. each_byte c; reflexivity. Qed.

Lemma asciiSpace_IsSpace c :
  byteZ c < RuneSelf -> asciiSpace c = IsSpace (byteZ c).
Proof. each_byte c; intros H; try reflexivity; vm_compute in H; discriminate. Qed.

Lemma asciiSpace_high c : RuneSelf <= byteZ c -> asciiSpace c = false.
Proof. each_byte c; intros H; try reflexivity; exfalso; apply H; reflexivity. Qed.

Lemma first_spec b sz lo hi :
  first b = Some (sz, lo, hi) ->
  0xC2 <= b <= 0xF4 /\ (sz = 2 \/ sz = 3 \/ sz = 4) /\ 0x80 <= lo /\ hi <= 0xBF.
Proof.
  unfold first. intros H.
  repeat match type of H with
  | (if ?c then _ else _) = _ => destruct c eqn:?
  end; inversion H; subst; lia.
Qed.

Lemma IsSpace_RuneError : IsSpace RuneError = false.
Proof. reflexivity. Qed.

Lemma Decode_nil : DecodeRuneInString [] = (RuneError, 0%nat).
Proof. reflexivity. Qed.

Lemma Decode_ascii c t :
  byteZ c < RuneSelf -> DecodeRuneInString (c :: t) = (byteZ c, 1%nat).
Proof.
  intros H. unfold DecodeRuneInString.
  destruct (Z.ltb_spec (byteZ c) RuneSelf); [reflexivity | lia].
Qed.

Lemma Decode_width s r w :
  DecodeRuneInString s = (r, w) -> s <> [] -> (1 <= w <= length s)%nat.
Proof.
  intros H Hs. destruct s as [|c0 t0]; [done|].
  unfold DecodeRuneInString in H.
  destruct (byteZ c0 <? RuneSelf); [inversion H; simpl; lia|].
  destruct (first (byteZ c0)) as [[[sz lo] hi]|] eqn:Hf; [|inversion H; simpl; lia].
  apply first_spec in Hf as (_ & Hsz & _).
  destruct (Z.ltb_spec (Z.of_nat (length (c0 :: t0))) sz); [inversion H; simpl; lia|].
  repeat match type of H with
  | (if ?c then _ else _) = _ => destruct c eqn:?
  | match ?l with [] => _ | _ :: _ => _ end = _ => destruct l
  end; inversion H; subst; simpl in *; lia.
Qed.

Ltac fin := first [done | by (exfalso; congruence) | by (simplify_eq)].

Lemma Decode_app s x r w :
  DecodeRuneInString s = (r, w) -> s <> [] -> (r, w) <> (RuneError, 1%nat) ->
  DecodeRuneInString (s ++ x) = (r, w).
Proof.
  intros H Hs Hv. destruct s as [|c0 t0]; [done|].
  rewrite <- app_comm_cons. unfold DecodeRuneInString in *.
  destruct (byteZ c0 <? RuneSelf); [fin|].
  destruct (first (byteZ c0)) as [[[sz lo] hi]|] eqn:Hf; [|fin].
  apply first_spec in Hf as (_ & Hsz & _).
  destruct (Z.ltb_spec (Z.of_nat (length (c0 :: t0))) sz); [fin|].
  destruct (Z.ltb_spec (Z.of_nat (length (c0 :: t0 ++ x))) sz).
  { simpl in *. rewrite length_app in *. lia. }
  destruct t0 as [|c1 t1]; [fin|]. rewrite <- app_comm_cons.
  destruct ((byteZ c1 <? lo) || (hi <? byteZ c1)); [fin|].
  destruct (sz <=? 2) eqn:E2; [fin|].
  destruct t1 as [|c2 t2]; [fin|]. rewrite <- app_comm_cons.
  destruct ((byteZ c2 <? locb) || (hicb <? byteZ c2)); [fin|].
  destruct (sz <=? 3) eqn:E3; [fin|].
  destruct t2 as [|c3 t3]; [fin|]. rewrite <- app_comm_cons. fin.
Qed.

Lemma Decode_space_start s r w :
  DecodeRuneInString s = (r, w) -> IsSpace r = true ->
  exists c t, s = c :: t /\ RuneStart c = true.
Proof.
  intros H Hsp. destruct s as [|c t].
  { inversion H; subst. discriminate. }
  exists c, t. split; [done|]. rewrite RuneStart_spec.
  unfold DecodeRuneInString in H.
  destruct (Z.ltb_spec (byteZ c) RuneSelf) as [Hlt|Hge].
  { unfold RuneSelf in Hlt. destruct (Z.leb_spec 0x80 (byteZ c)); [lia|done]. }
  destruct (first (byteZ c)) as [[[sz lo] hi]|] eqn:Hf.
  - apply first_spec in Hf as (Hb & _).
    destruct (Z.leb_spec (byteZ c) 0xBF); [lia|]. by rewrite andb_false_r.
  - inversion H; subst. discriminate.
Qed.

Lemma Decode_lonely c t :
  RuneSelf <= byteZ c ->
  (t = [] \/ exists d t', t = d :: t' /\ RuneStart d = true) ->
  DecodeRuneInString (c :: t) = (RuneError, 1%nat).
Proof.
  intros Hc Ht. unfold DecodeRuneInString.
  destruct (Z.ltb_spec (byteZ c) RuneSelf); [lia|].
  destruct (first (byteZ c)) as [[[sz lo] hi]|] eqn:Hf; [|done].
  apply first_spec in Hf as (_ & Hsz & Hlo & Hhi).
  destruct (Z.of_nat (length (c :: t)) <? sz); [done|].
  destruct Ht as [->|(d & t' & -> & Hd)]; [done|].
  rewrite RuneStart_spec in Hd.
  destruct (Z.ltb_spec (byteZ d) lo); [done|].
  destruct (Z.ltb_spec hi (byteZ d)); [done|].
  exfalso. destruct (Z.leb_spec 0x80 (byteZ d)); [|lia].
  destruct (Z.leb_spec (byteZ d) 0xBF); [|lia]. done.
Qed.

Lemma backToStart_le n s st lim : backToStart n s st lim <= st.
Proof.
  revert st. induction n as [|n IH]; intros st; simpl; [lia|].
  destruct (st <? lim); [lia|].
  destruct (s !! Z.to_nat st); [|lia].
  destruct (RuneStart a); [lia|]. specialize (IH (st - 1)). lia.
Qed.

Lemma DecodeLast_spec s r w :
  DecodeLastRuneInString s = (r, w) -> s <> [] ->
  (1 <= w <= length s)%nat /\
  ((r, w) = (RuneError, 1%nat) \/
   DecodeRuneInString (drop (length s - w) s) = (r, w)).
Proof.
  intros H Hs. unfold DecodeLastRuneInString in H.
  assert (Hl : (0 < length s)%nat) by (destruct s; [done | simpl; lia]).
  destruct (Z.eqb_spec (Z.of_nat (length s)) 0); [lia|].
  replace (Z.to_nat (Z.of_nat (length s) - 1)) with (length s - 1)%nat in H by lia.
  destruct (s !! (length s - 1)%nat) as [c|] eqn:Hc.
  2:{ apply lookup_ge_None in Hc. lia. }
  destruct (Z.ltb_spec (byteZ c) RuneSelf).
  { inversion H; subst. split; [lia|]. right.
    rewrite (drop_S _ c) by done.
    replace (S (length s - 1)) with (length s) by lia.
    rewrite drop_all. by apply Decode_ascii. }
  set (st0 := backToStart 4 s (Z.of_nat (length s) - 1 - 1)
                (Z.max (Z.of_nat (length s) - UTFMax) 0)) in H.
  assert (Hst0 : st0 <= Z.of_nat (length s) - 2).
  { unfold st0. etrans; [apply backToStart_le|]. lia. }
  set (st := if st0 <? 0 then 0 else st0) in H.
  assert (Hst : 0 <= st <= Z.of_nat (length s) - 1).
  { unfold st. destruct (Z.ltb_spec st0 0); lia. }
  destruct (DecodeRuneInString (drop (Z.to_nat st) s)) as [r0 size] eqn:Hd.
  destruct (Z.eqb_spec (st + Z.of_nat size) (Z.of_nat (length s))) as [He|Hne];
    simpl in H; inversion H; subst.
  - split; [lia|]. right. rewrite <- Hd. f_equal. f_equal. lia.
  - split; [lia|]. by left.
Qed.

Lemma DecodeLast_ascii l d :
  byteZ d < RuneSelf -> DecodeLastRuneInString (l ++ [d]) = (byteZ d, 1%nat).
Proof.
  intros H. unfold DecodeLastRuneInString.
  rewrite length_app. simpl length.
  destruct (Z.eqb_spec (Z.of_nat (length l + 1)) 0); [lia|].
  replace (Z.to_nat (Z.of_nat (length l + 1) - 1)) with (length l + 0)%nat by lia.
  rewrite lookup_app_r by lia.
  replace (length l + 0 - length l)%nat with 0%nat by lia. simpl.
  destruct (Z.ltb_spec (byteZ d) RuneSelf); [done|lia].
Qed.

Ltac decode_leaf H :=
  inversion H; subst; simpl;
  repeat match goal with
  | E : _ = _ |- _ => rewrite E
  end;
  repeat match goal with
  | |- context [?a <? ?sz] => destruct (Z.ltb_spec a sz); try lia
  | |- context [?sz <=? ?a] => destruct (Z.leb_spec sz a); try lia
  end; done.

Lemma Decode_take s r w :
  DecodeRuneInString s = (r, w) -> DecodeRuneInString (take w s) = (r, w).
Proof.
  intros H. destruct s as [|c0 t0].
  { inversion H; subst. done. }
  unfold DecodeRuneInString in *.
  destruct (byteZ c0 <? RuneSelf) eqn:E0.
  { inversion H; subst. simpl. by rewrite E0. }
  destruct (first (byteZ c0)) as [[[sz lo] hi]|] eqn:Hf.
  2:{ inversion H; subst. simpl. by rewrite E0, Hf. }
  pose proof (first_spec _ _ _ _ Hf) as (_ & Hsz & _).
  destruct (Z.ltb_spec (Z.of_nat (length (c0 :: t0))) sz) as [Hl|Hl];
    [decode_leaf H|].
  destruct t0 as [|c1 t1]; [decode_leaf H|].
  destruct ((byteZ c1 <? lo) || (hi <? byteZ c1)) eqn:E1; [decode_leaf H|].
  destruct (Z.leb_spec sz 2); [decode_leaf H|].
  destruct t1 as [|c2 t2]; [decode_leaf H|].
  destruct ((byteZ c2 <? locb) || (hicb <? byteZ c2)) eqn:E2; [decode_leaf H|].
  destruct (Z.leb_spec sz 3); [decode_leaf H|].
  destruct t2 as [|c3 t3]; [decode_leaf H|].
  destruct ((byteZ c3 <? locb) || (hicb <? byteZ c3)) eqn:E3; decode_leaf H.
Qed.

(** ** Trimming *)

(** Texts of white space only. *)

Lemma spaceRunes_Blank fuel s : spaceRunes fuel s = true -> Blank s.
Proof.
  revert s. induction fuel as [|k IH]; intros s H.
  - destruct s; [constructor|done].
  - destruct s as [|c t]; [constructor|]. simpl in H.
    destruct (DecodeRuneInString (c :: t)) as [r w] eqn:Hd.
    apply andb_true_iff in H as [Hr Hk].
    eapply Blank_rune; eauto.
Qed.

Lemma Blank_trimLeft s fuel :
  Blank s -> (length s <= fuel)%nat -> trimLeftRunes fuel IsSpace s = [].
Proof.
  intros H. revert fuel. induction H as [|s r w Hs Hd Hr Hb IH]; intros fuel Hf.
  - by destruct fuel.
  - destruct fuel as [|k]; [done|]. destruct s as [|c t]; [done|].
    simpl. rewrite Hd, Hr. apply IH.
    pose proof (Decode_width _ _ _ Hd Hs). rewrite length_drop. simpl in *. lia.
Qed.

Lemma trimLeftRunes_nil fuel s :
  (length s <= fuel)%nat -> trimLeftRunes fuel IsSpace s = [] -> Blank s.
Proof.
  revert s. induction fuel as [|k IH]; intros s Hl H.
  - destruct s; [constructor|simpl in Hl; lia].
  - destruct s as [|c t]; [constructor|]. simpl in H.
    destruct (DecodeRuneInString (c :: t)) as [r w] eqn:Hd.
    pose proof (Decode_width _ _ _ Hd ltac:(done)) as Hw.
    destruct (IsSpace r) eqn:Hr; [|done].
    eapply Blank_rune; eauto. apply IH; [|done].
    rewrite length_drop. simpl in *. lia.
Qed.

Lemma Blank_spaceRunes s fuel :
  Blank s -> (length s <= fuel)%nat -> spaceRunes fuel s = true.
Proof.
  intros H. revert fuel. induction H as [|s r w Hs Hd Hr Hb IH]; intros fuel Hf.
  - by destruct fuel.
  - destruct s as [|c t]; [done|]. destruct fuel as [|k]; [simpl in Hf; lia|].
    simpl. rewrite Hd, Hr. simpl. apply IH.
    pose proof (Decode_width _ _ _ Hd Hs). rewrite length_drop. simpl in *. lia.
Qed.

Lemma Blank_app x y : Blank x -> Blank y -> Blank (x ++ y).
Proof.
  intros Hx Hy. induction Hx as [|s r w Hs Hd Hr Hb IH]; [done|].
  pose proof (Decode_width _ _ _ Hd Hs) as Hw.
  apply (Blank_rune (s ++ y) r w).
  - by destruct s.
  - apply Decode_app; [done|done|]. intros Heq. inversion Heq; subst. discriminate.
  - done.
  - rewrite drop_app_le by lia. done.
Qed.

Lemma Blank_one_rune s r w :
  DecodeRuneInString s = (r, w) -> s <> [] -> IsSpace r = true -> Blank (take w s).
Proof.
  intros Hd Hs Hr. pose proof (Decode_width _ _ _ Hd Hs) as Hw.
  apply (Blank_rune (take w s) r w).
  - destruct s; [done|]. destruct w; [lia|done].
  - by apply Decode_take.
  - done.
  - rewrite drop_ge; [constructor|]. rewrite length_take. lia.
Qed.

Lemma Blank_ascii_space c t : asciiSpace c = true -> Blank t -> Blank (c :: t).
Proof.
  intros Hc Ht.
  destruct (Z.leb_spec RuneSelf (byteZ c)) as [Hhi|Hlo].
  { rewrite asciiSpace_high in Hc by done. done. }
  apply (Blank_rune (c :: t) (byteZ c) 1); [done| by apply Decode_ascii | | done].
  by rewrite <- asciiSpace_IsSpace.
Qed.

Lemma Blank_asciiSpaces l : Forall (fun c => asciiSpace c = true) l -> Blank l.
Proof.
  induction 1 as [|c l Hc _ IH]; [constructor|]. by apply Blank_ascii_space.
Qed.

(** The left side. *)

Lemma clean_start_take u e :
  clean_start u -> (0 < e)%nat -> clean_start (take e u).
Proof.
  intros [Hu Hsp] He. split.
  { destruct u; [done|]. destruct e; [lia|]. done. }
  destruct (DecodeRuneInString (take e u)) as [r w] eqn:Hd. simpl.
  destruct (IsSpace r) eqn:Hr; [|done].
  assert (Hne : take e u <> []).
  { destruct u; [done|]. destruct e; [lia|]. done. }
  pose proof (Decode_app _ (drop e u) _ _ Hd Hne) as Happ.
  rewrite take_drop in Happ. rewrite Happ in Hsp.
  - simpl in Hsp. congruence.
  - intros Heq. inversion Heq; subst. discriminate.
Qed.

Lemma trimLeftRunes_spec fuel s :
  (length s <= fuel)%nat ->
  trimLeftRunes fuel IsSpace s = [] \/ clean_start (trimLeftRunes fuel IsSpace s).
Proof.
  revert s. induction fuel as [|k IH]; intros s Hl; simpl; [by left|].
  destruct s as [|c t]; [by left|].
  destruct (DecodeRuneInString (c :: t)) as [r w] eqn:Hd.
  pose proof (Decode_width _ _ _ Hd ltac:(done)) as Hw.
  destruct (IsSpace r) eqn:Hr.
  - apply IH. rewrite length_drop. simpl in *. lia.
  - right. split; [done|]. by rewrite Hd.
Qed.

Lemma trimLeftRunes_split fuel s :
  (length s <= fuel)%nat ->
  exists p, s = p ++ trimLeftRunes fuel IsSpace s /\ Blank p.
Proof.
  revert s. induction fuel as [|k IH]; intros s Hl.
  - destruct s; [|simpl in Hl; lia]. exists []. split; [done|constructor].
  - destruct s as [|c t]; [exists []; split; [done|constructor]|].
    simpl. destruct (DecodeRuneInString (c :: t)) as [r w] eqn:Hd.
    pose proof (Decode_width _ _ _ Hd ltac:(done)) as Hw.
    destruct (IsSpace r) eqn:Hr.
    + destruct (IH (drop w (c :: t))) as (p & Hp & Hb).
      { rewrite length_drop. simpl in *. lia. }
      exists (take w (c :: t) ++ p). split.
      * rewrite <- app_assoc, <- Hp. by rewrite take_drop.
      * apply Blank_app; [|done]. by apply (Blank_one_rune _ r).
    + exists []. split; [done|constructor].
Qed.

Lemma TrimLeftFunc_clean s :
  clean_start s -> TrimLeftFunc s IsSpace = s.
Proof.
  intros [Hs Hsp]. unfold TrimLeftFunc. destruct s as [|c t]; [done|].
  simpl length. simpl trimLeftRunes.
  destruct (DecodeRuneInString (c :: t)) as [r w]. simpl in Hsp. by rewrite Hsp.
Qed.

(** The right side: the loop of [lastIndexFunc] stops, on a text whose first
    rune is no white space, at the last rune that is none. *)

Lemma lastIndex_found fuel u i :
  clean_start u -> (0 < i <= length u)%nat -> (i <= fuel)%nat ->
  at_rune_start u i -> Blank (drop i u) ->
  exists j e r,
    lastIndexFunc_from fuel u IsSpace false i = Some j /\
    (0 < e <= i)%nat /\ (j < e)%nat /\
    DecodeLastRuneInString (take e u) = (r, (e - j)%nat) /\
    IsSpace r = false /\ at_rune_start u e /\ Blank (drop e u) /\
    (IsSpace (DecodeLastRuneInString (take i u)).1 = false -> e = i).
Proof.
  intros Hu. revert i. induction fuel as [|k IH]; intros i Hi Hf Hrs Hbl; [lia|].
  simpl. destruct (Nat.eqb_spec i 0); [lia|].
  destruct (DecodeLastRuneInString (take i u)) as [r size] eqn:Hd.
  assert (Hne : take i u <> []).
  { destruct u; [simpl in *; lia|]. destruct i; [lia|]. done. }
  pose proof (DecodeLast_spec _ _ _ Hd Hne) as [Hsz Hdec].
  rewrite length_take in Hsz, Hdec.
  replace (i `min` length u)%nat with i in * by lia.
  destruct (IsSpace r) eqn:Hr; simpl.
  - destruct Hdec as [Hdec|Hdec]; [inversion Hdec; subst; discriminate|].
    assert (Hv : (r, size) <> (RuneError, 1%nat)).
    { intros Heq. inversion Heq; subst. discriminate. }
    assert (Hpos : (0 < i - size)%nat).
    { destruct (Nat.eq_dec (i - size)%nat 0%nat) as [Hz|]; [|lia]. exfalso.
      rewrite Hz, drop_0 in Hdec.
      pose proof (Decode_app _ (drop i u) _ _ Hdec Hne Hv) as Happ.
      rewrite take_drop in Happ. destruct Hu as [_ Hu]. rewrite Happ in Hu.
      simpl in Hu. congruence. }
    destruct (Decode_space_start _ _ _ Hdec Hr) as (c & t & Hct & Hc).
    assert (Hsplit : drop (i - size) u = drop (i - size) (take i u) ++ drop i u).
    { rewrite <- (take_drop i u) at 1. rewrite drop_app_le; [done|].
      rewrite length_take. lia. }
    destruct (IH (i - size)%nat) as (j & e & r' & H1 & H2 & H3 & H4 & H5 & H6 & H7 & _).
    + lia.
    + lia.
    + right. exists c. split; [|done].
      assert (Hl : drop (i - size) (take i u) !! 0%nat = Some c) by by rewrite Hct.
      rewrite lookup_drop, lookup_take_lt in Hl by lia.
      by replace (i - size + 0)%nat with (i - size)%nat in Hl by lia.
    + rewrite Hsplit. apply (Blank_rune _ r size).
      * rewrite Hct. done.
      * apply Decode_app; [done| by rewrite Hct |done].
      * done.
      * rewrite drop_app_length'; [done|].
        rewrite length_drop, length_take. lia.
    + exists j, e, r'. repeat split; try done; try lia. simpl. congruence.
  - exists (i - size)%nat, i, r. repeat split; try done; try lia.
    by replace (i - (i - size))%nat with size by lia.
Qed.

Ltac take_eq :=
  match goal with |- take ?a ?u = take ?b ?u =>
    apply (f_equal (fun n => take n u)); lia end.

Lemma TrimRight_adjust u j e r :
  (0 < e <= length u)%nat -> (j < e)%nat ->
  DecodeLastRuneInString (take e u) = (r, (e - j)%nat) ->
  at_rune_start u e ->
  match u !! j with
  | Some c =>
    if RuneSelf <=? byteZ c then
      let '(_, wid) := DecodeRuneInString (drop j u) in take (j + wid) u
    else take (j + 1) u
  | None => take (j + 1) u
  end = take e u.
Proof.
  intros He Hj Hd Hrs.
  assert (Hne : take e u <> []).
  { destruct u; [simpl in *; lia|]. destruct e; [lia|]. done. }
  pose proof (DecodeLast_spec _ _ _ Hd Hne) as [Hsz Hdec].
  rewrite length_take in Hsz, Hdec.
  replace (e `min` length u)%nat with e in * by lia.
  replace (e - (e - j))%nat with j in Hdec by lia.
  destruct (u !! j) as [c|] eqn:Hc.
  2:{ apply lookup_ge_None in Hc. lia. }
  assert (Hdj : drop j u = c :: drop (S j) u) by by apply drop_S.
  assert (Hdt : drop j (take e u) = c :: drop (S j) (take e u)).
  { apply drop_S. rewrite lookup_take_lt by lia. done. }
  destruct (Z.leb_spec RuneSelf (byteZ c)) as [Hhi|Hlo].
  - assert (Hcase : (r, (e - j)%nat) = (RuneError, 1%nat) \/
                    ((r, (e - j)%nat) <> (RuneError, 1%nat) /\
                     DecodeRuneInString (drop j (take e u)) = (r, (e - j)%nat))).
    { destruct (decide ((r, (e - j)%nat) = (RuneError, 1%nat))); [by left|].
      right. split; [done|]. by destruct Hdec. }
    destruct Hcase as [Heq|[Hv Hdd]].
    + inversion Heq as [[Hr Hw]].
      assert (HS : S j = e) by lia.
      rewrite Hdj, Decode_lonely; [take_eq|done|].
      rewrite HS. destruct Hrs as [->|(d & Hd1 & Hd2)].
      * left. by rewrite drop_all.
      * right. exists d, (drop (S e) u). split; [by apply drop_S|done].
    + pose proof (Decode_app _ (drop e u) _ _ Hdd ltac:(by rewrite Hdt) Hv) as Happ.
      replace (drop j (take e u) ++ drop e u) with (drop j u) in Happ.
      * rewrite Happ. take_eq.
      * rewrite <- (take_drop e u) at 1. rewrite drop_app_le; [done|].
        rewrite length_take. lia.
  - destruct Hdec as [Hdec|Hdec].
    + inversion Hdec. take_eq.
    + rewrite Hdt, Decode_ascii in Hdec by done. inversion Hdec.
      take_eq.
Qed.

Lemma TrimRightFunc_nil : TrimRightFunc [] IsSpace = [].
Proof. reflexivity. Qed.

Lemma TrimRightFunc_spec u :
  clean_start u ->
  exists e, (0 < e <= length u)%nat /\ TrimRightFunc u IsSpace = take e u /\
    clean_end (take e u) /\ Blank (drop e u) /\ (clean_end u -> e = length u).
Proof.
  intros Hu. unfold TrimRightFunc, lastIndexFunc.
  assert (Hl : (0 < length u)%nat).
  { destruct Hu as [Hu _]. destruct u; [done|simpl; lia]. }
  destruct (lastIndex_found (length u) u (length u) Hu)
    as (j & e & r & H1 & H2 & H3 & H4 & H5 & H6 & H7 & H8);
    [lia | lia | by left | rewrite drop_all; constructor |].
  rewrite H1. exists e. split; [lia|]. split; [|split; [|split]].
  - eapply TrimRight_adjust; eauto; lia.
  - split; [destruct u; [simpl in *; lia|]; destruct e; [lia|done]|].
    by rewrite H4.
  - done.
  - intros [_ Hce]. apply H8. by rewrite firstn_all.
Qed.

(** The ASCII fast path. *)

Lemma skipAsciiSpace_spec s :
  skipAsciiSpace s = [] \/
  exists c t, skipAsciiSpace s = c :: t /\ asciiSpace c = false.
Proof.
  induction s as [|c t IH]; simpl; [by left|].
  destruct (asciiSpace c) eqn:Hc; [done|]. right. by exists c, t.
Qed.

Lemma skipAsciiSpace_split s :
  exists p, s = p ++ skipAsciiSpace s /\ Forall (fun c => asciiSpace c = true) p.
Proof.
  induction s as [|c t (p & IH & Hp)]; simpl; [by exists []|].
  destruct (asciiSpace c) eqn:Hc.
  - exists (c :: p). split; [simpl; by f_equal|]. by constructor.
  - by exists [].
Qed.

Lemma skipAsciiSpace_snoc l c :
  asciiSpace c = false -> exists l2, skipAsciiSpace (l ++ [c]) = l2 ++ [c] /\ exists l1, l = l1 ++ l2.
Proof.
  intros Hc. induction l as [|a l IH]; simpl.
  - rewrite Hc. exists []. split; [done|]. by exists [].
  - destruct (asciiSpace a).
    + destruct IH as (l2 & -> & l1 & ->). exists l2. split; [done|]. by exists (a :: l1).
    + exists (a :: l). split; [done|]. by exists [].
Qed.

Lemma Blank_skipAsciiSpace_inv s : Blank (skipAsciiSpace s) -> Blank s.
Proof.
  induction s as [|c t IH]; [done|]. simpl.
  destruct (asciiSpace c) eqn:Hc; [|done].
  intros H. apply Blank_ascii_space; auto.
Qed.

Lemma Blank_skipAsciiSpace s : Blank s -> Blank (skipAsciiSpace s).
Proof.
  induction s as [|c t IH]; intros H; [done|]. simpl.
  destruct (asciiSpace c) eqn:Hc; [|done].
  apply IH. inversion H as [|s r w Hs Hd Hr Hb]; subst.
  destruct (Z.leb_spec RuneSelf (byteZ c)) as [Hhi|Hlo].
  { rewrite asciiSpace_high in Hc by done. done. }
  rewrite Decode_ascii in Hd by done. inversion Hd; subst. done.
Qed.

Lemma clean_start_ascii c t :
  byteZ c < RuneSelf -> asciiSpace c = false -> clean_start (c :: t).
Proof.
  intros Hlt Hc. split; [done|]. rewrite Decode_ascii by done. simpl.
  by rewrite <- asciiSpace_IsSpace.
Qed.

Lemma clean_end_ascii l d :
  byteZ d < RuneSelf -> asciiSpace d = false -> clean_end (l ++ [d]).
Proof.
  intros Hlt Hd. split; [by destruct l|]. rewrite DecodeLast_ascii by done. simpl.
  by rewrite <- asciiSpace_IsSpace.
Qed.

(** What [TrimFunc] and [TrimSpace] give: nothing, for a text of white space
    only, or a text that starts and ends with a rune that is no white space. *)

Lemma TrimFunc_cases s :
  (TrimFunc s IsSpace = [] /\ Blank s) \/
  (clean_start (TrimFunc s IsSpace) /\ clean_end (TrimFunc s IsSpace)).
Proof.
  unfold TrimFunc, TrimLeftFunc.
  destruct (trimLeftRunes_spec (length s) s) as [Hnil| Hu]; [lia | |].
  - left. rewrite Hnil. split; [done|]. by apply (trimLeftRunes_nil (length s)).
  - right. destruct (TrimRightFunc_spec _ Hu) as (e & He & -> & Hce & _).
    split; [|done]. apply clean_start_take; [done|lia].
Qed.

Lemma TrimSpace_cases s :
  (TrimSpace s = [] /\ Blank s) \/
  (clean_start (TrimSpace s) /\ clean_end (TrimSpace s)).
Proof.
  unfold TrimSpace.
  destruct (skipAsciiSpace_spec s) as [Hnil|(c & t & Hs & Hc)].
  { left. rewrite Hnil. split; [done|]. apply Blank_skipAsciiSpace_inv.
    rewrite Hnil. constructor. }
  rewrite Hs.
  destruct (Z.leb_spec RuneSelf (byteZ c)) as [Hhi|Hlo].
  { destruct (TrimFunc_cases (c :: t)) as [[Hn Hb]|Hcl]; [|by right].
    left. split; [done|]. apply Blank_skipAsciiSpace_inv. by rewrite Hs. }
  rewrite reverse_cons.
  destruct (skipAsciiSpace_snoc (reverse t) c Hc) as (l2 & Hl2 & _).
  destruct (skipAsciiSpace_spec (reverse t ++ [c])) as [Hnil|(d & r & Hdr & Hd)].
  { rewrite Hnil in Hl2. by destruct l2. }
  rewrite Hdr. rewrite Hdr in Hl2.
  assert (Hrev : reverse (d :: r) = c :: reverse l2).
  { rewrite Hl2, reverse_app. done. }
  right. destruct (Z.leb_spec RuneSelf (byteZ d)) as [Hdhi|Hdlo].
  - rewrite Hrev.
    assert (Hcs' : clean_start (c :: reverse l2)) by by apply clean_start_ascii.
    destruct (TrimRightFunc_spec _ Hcs') as (e & He & -> & Hce & _).
    split; [|done]. apply clean_start_take; [done|lia].
  - split.
    + rewrite Hrev. by apply clean_start_ascii.
    + rewrite reverse_cons. by apply clean_end_ascii.
Qed.

Lemma TrimRightFunc_clean s :
  clean_start s -> clean_end s -> TrimRightFunc s IsSpace = s.
Proof.
  intros Hs He. destruct (TrimRightFunc_spec _ Hs) as (e & _ & -> & _ & _ & Hlen).
  rewrite (Hlen He). apply firstn_all.
Qed.

Lemma TrimSpace_clean s :
  clean_start s -> clean_end s -> TrimSpace s = s.
Proof.
  intros Hs He. unfold TrimSpace.
  destruct s as [|c t]; [by destruct Hs|].
  assert (Hc : asciiSpace c = false).
  { destruct (Z.leb_spec RuneSelf (byteZ c)); [by apply asciiSpace_high|].
    destruct Hs as [_ Hs]. rewrite Decode_ascii in Hs by done.
    by rewrite asciiSpace_IsSpace. }
  simpl skipAsciiSpace. rewrite Hc.
  destruct (Z.leb_spec RuneSelf (byteZ c)) as [Hhi|Hlo].
  { unfold TrimFunc. rewrite TrimLeftFunc_clean by done.
    by apply TrimRightFunc_clean. }
  destruct (reverse (c :: t)) as [|d r] eqn:Hr.
  { apply (f_equal reverse) in Hr. rewrite reverse_involutive in Hr. done. }
  assert (Hs' : c :: t = reverse r ++ [d]).
  { rewrite <- reverse_cons, <- Hr. by rewrite reverse_involutive. }
  assert (Hd : asciiSpace d = false).
  { destruct (Z.leb_spec RuneSelf (byteZ d)); [by apply asciiSpace_high|].
    destruct He as [_ He]. rewrite Hs', DecodeLast_ascii in He by done.
    by rewrite asciiSpace_IsSpace. }
  simpl skipAsciiSpace. rewrite Hd, <- Hr, reverse_involutive.
  destruct (Z.leb_spec RuneSelf (byteZ d)); [by apply TrimRightFunc_clean|done].
Qed.

Lemma TrimSpace_nil : TrimSpace [] = [].
Proof. reflexivity. Qed.

Lemma TrimSpace_idemp s : TrimSpace (TrimSpace s) = TrimSpace s.
Proof.
  destruct (TrimSpace_cases s) as [[-> _]|[Hs He]]; [done|]. by apply TrimSpace_clean.
Qed.

Lemma Blank_TrimSpace s : Blank s -> TrimSpace s = [].
Proof.
  intros H. apply Blank_skipAsciiSpace in H. unfold TrimSpace.
  destruct (skipAsciiSpace_spec s) as [->|(c & t & Hs & Hc)]; [done|].
  rewrite Hs in *.
  destruct (Z.leb_spec RuneSelf (byteZ c)) as [Hhi|Hlo].
  - unfold TrimFunc, TrimLeftFunc. by rewrite Blank_trimLeft.
  - exfalso. inversion H as [|s' r w Hs' Hd Hr Hb]; subst.
    rewrite Decode_ascii in Hd by done. inversion Hd; subst.
    rewrite <- asciiSpace_IsSpace in Hr by done. congruence.
Qed.

Lemma whitespaceOnly_TrimSpace s : whitespaceOnly s = true -> TrimSpace s = [].
Proof. intros H. eapply Blank_TrimSpace, spaceRunes_Blank, H. Qed.

Lemma TrimSpace_nil_iff s : TrimSpace s = [] <-> whitespaceOnly s = true.
Proof.
  split.
  - intros H. destruct (TrimSpace_cases s) as [[_ Hb]|[[Hne _] _]]; [|done].
    by apply Blank_spaceRunes.
  - apply whitespaceOnly_TrimSpace.
Qed.


(** What [TrimSpace] removes is white space: the text is its trimmed form
    between two texts of white space only. *)
Lemma TrimFunc_infix s :
  exists p q, s = p ++ TrimFunc s IsSpace ++ q /\ Blank p /\ Blank q.
Proof.
  unfold TrimFunc, TrimLeftFunc.
  destruct (trimLeftRunes_split (length s) s) as (p & Hp & Hbp); [lia|].
  destruct (trimLeftRunes_spec (length s) s) as [Hnil|Hu]; [lia| |].
  - rewrite Hnil in *. exists p, []. rewrite TrimRightFunc_nil.
    split; [done|]. split; [done|constructor].
  - destruct (TrimRightFunc_spec _ Hu) as (e & He & -> & _ & Hbq & _).
    exists p, (drop e (trimLeftRunes (length s) IsSpace s)).
    rewrite take_drop. done.
Qed.

Lemma TrimSpace_infix s :
  exists p q, s = p ++ TrimSpace s ++ q /\ Blank p /\ Blank q.
Proof.
  unfold TrimSpace.
  destruct (skipAsciiSpace_split s) as (p0 & Hs & Hp0). apply Blank_asciiSpaces in Hp0.
  destruct (skipAsciiSpace_spec s) as [Hnil|(c & t & Hs1 & Hc)].
  { rewrite Hnil in *. exists p0, []. split; [done|]. split; [done|constructor]. }
  rewrite Hs1 in *.
  destruct (Z.leb_spec RuneSelf (byteZ c)) as [Hhi|Hlo].
  { destruct (TrimFunc_infix (c :: t)) as (p & q & Hpq & Hbp & Hbq).
    exists (p0 ++ p), q. split; [|split; [by apply Blank_app|done]].
    rewrite <- app_assoc, <- Hpq. done. }
  rewrite reverse_cons.
  destruct (skipAsciiSpace_split (reverse t ++ [c])) as (pr & Hr & Hpr).
  destruct (skipAsciiSpace_snoc (reverse t) c Hc) as (l2 & Hl2 & _).
  destruct (skipAsciiSpace_spec (reverse t ++ [c])) as [Hnil|(d & r & Hdr & Hd)].
  { rewrite Hnil in Hl2. by destruct l2. }
  rewrite Hdr in *.
  assert (Hrev : reverse (d :: r) = c :: reverse l2).
  { rewrite Hl2, reverse_app. done. }
  assert (Hct : c :: t = reverse (d :: r) ++ reverse pr).
  { rewrite <- reverse_app, <- Hr, reverse_app, reverse_involutive. done. }
  assert (Hbr : Blank (reverse pr)).
  { apply Blank_asciiSpaces. by apply Forall_reverse. }
  destruct (Z.leb_spec RuneSelf (byteZ d)) as [Hdhi|Hdlo].
  - assert (Hcs : clean_start (reverse (d :: r))).
    { rewrite Hrev. by apply clean_start_ascii. }
    destruct (TrimRightFunc_spec _ Hcs) as (e & He & -> & _ & Hbq & _).
    exists p0, (drop e (reverse (d :: r)) ++ reverse pr).
    split; [|split; [done|by apply Blank_app]].
    rewrite Hs, Hct. f_equal. by rewrite app_assoc, take_drop.
  - exists p0, (reverse pr). split; [|done]. by rewrite Hs, Hct.
Qed.
(** ** Normalization *)

Lemma dedupFirst_snoc l x :
  dedupFirst (l ++ [x]) =
  if decide (x ∈ l) then dedupFirst l else dedupFirst l ++ [x].
Proof.
  unfold dedupFirst. rewrite reverse_snoc. simpl.
  destruct (decide_rel elem_of x (reverse l)) as [Hin|Hin];
    rewrite elem_of_reverse in Hin; destruct (decide (x ∈ l)); try done.
  by rewrite reverse_cons.
Qed.

Lemma elem_of_dedupFirst l x : x ∈ dedupFirst l <-> x ∈ l.
Proof.
  unfold dedupFirst. by rewrite elem_of_reverse, elem_of_remove_dups, elem_of_reverse.
Qed.

Lemma NoDup_rev (l : list bytes) : NoDup (reverse l) <-> NoDup l.
Proof. by rewrite reverse_Permutation. Qed.

Lemma NoDup_dedupFirst l : NoDup (dedupFirst l).
Proof. unfold dedupFirst. apply NoDup_rev, NoDup_remove_dups. Qed.

Lemma remove_dups_NoDup (l : list bytes) : NoDup l -> remove_dups l = l.
Proof.
  induction 1 as [|x l Hx Hl IH]; simpl; [done|].
  destruct (decide_rel elem_of x l); [done|]. by rewrite IH.
Qed.

Lemma dedupFirst_NoDup l : NoDup l -> dedupFirst l = l.
Proof.
  intros H. unfold dedupFirst. rewrite remove_dups_NoDup by by apply NoDup_rev.
  apply reverse_involutive.
Qed.

(** The loop of [normalizeMessages] against the specification. *)
Lemma normalize_loop msgs :
  exists seen,
    foldl normalizeStep ([], ∅) msgs = (normalizeSpec msgs, seen) /\
    forall m, default false (seen !! m) = true <-> m ∈ normalizeSpec msgs.
Proof.
  induction msgs as [|x l IH] using rev_ind.
  - exists ∅. split; [done|]. intros m. rewrite lookup_empty. simpl.
    split; [done|]. intros H. by apply elem_of_nil in H.
  - destruct IH as (seen & Hfold & Hseen).
    rewrite foldl_snoc, Hfold. unfold normalizeStep, normalizeSpec.
    rewrite fmap_app, filter_app. simpl fmap.
    fold (normalizeSpec l).
    destruct (decide (TrimSpace x = [])) as [He|Hne].
    + rewrite He. rewrite bool_decide_eq_true_2 by done. simpl.
      rewrite filter_cons_False by (intros H; by apply H).
      rewrite filter_nil, app_nil_r. by exists seen.
    + rewrite bool_decide_eq_false_2 by done. simpl.
      rewrite filter_cons_True by done. rewrite filter_nil.
      rewrite dedupFirst_snoc.
      destruct (default false (seen !! TrimSpace x)) eqn:Hs.
      * apply Hseen in Hs. unfold normalizeSpec in Hs.
        rewrite elem_of_dedupFirst in Hs. rewrite decide_True by done.
        by exists seen.
      * rewrite decide_False.
        2:{ intros Hin. apply elem_of_dedupFirst in Hin. apply Hseen in Hin. congruence. }
        exists (<[TrimSpace x := true]> seen). split; [done|].
        intros m. rewrite elem_of_app, list_elem_of_singleton.
        destruct (decide (m = TrimSpace x)) as [->|Hm].
        -- rewrite lookup_insert_eq. simpl. split; [by right|done].
        -- rewrite lookup_insert_ne by done. rewrite Hseen.
           unfold normalizeSpec. split; [by left|]. by intros [?|?].
Qed.

Lemma normalizeMessages_spec msgs : normalizeMessages msgs = normalizeSpec msgs.
Proof.
  unfold normalizeMessages. destruct (normalize_loop msgs) as (seen & -> & _). done.
Qed.

Lemma normalizeSpec_fixed l :
  NoDup l -> Forall (fun m => m <> [] /\ TrimSpace m = m) l -> normalizeSpec l = l.
Proof.
  intros Hnd Hall. unfold normalizeSpec.
  assert (Hmap : TrimSpace <$> l = l).
  { induction Hall as [|m l [_ Hm] _ IH]; simpl; [done|].
    rewrite Hm. f_equal. apply IH. by inversion Hnd. }
  rewrite Hmap.
  assert (Hfil : filter (fun m : bytes => m <> []) l = l).
  { clear Hmap Hnd. induction Hall as [|m l [Hm _] _ IH]; [done|].
    rewrite filter_cons_True by done. by rewrite IH. }
  rewrite Hfil. by apply dedupFirst_NoDup.
Qed.

Lemma normalizeSpec_elems l :
  Forall (fun m => m <> [] /\ TrimSpace m = m) (normalizeSpec l).
Proof.
  apply Forall_forall. intros m Hm. unfold normalizeSpec in Hm.
  apply elem_of_dedupFirst, list_elem_of_filter in Hm as [Hne Hin].
  split; [done|]. apply list_elem_of_fmap in Hin as (y & -> & _).
  apply TrimSpace_idemp.
Qed.

(** ** The fallback loop *)
Lemma fallback_loop acc lines :
  foldl fallbackStep acc lines = acc ++ filter (fun l => l <> []) (stripLine <$> lines).
Proof.
  revert acc. induction lines as [|l ls IH]; intros acc; simpl.
  - by rewrite app_nil_r.
  - rewrite IH. unfold fallbackStep. fold (stripLine l).
    destruct (decide (stripLine l = [])) as [He|Hne].
    + rewrite bool_decide_eq_true_2 by done.
      by rewrite filter_cons_False by (intros H; by apply H).
    + rewrite bool_decide_eq_false_2 by done.
      rewrite filter_cons_True by done. by rewrite <- app_assoc.
Qed.

Lemma fallbackLines_spec content : fallbackLines content = strippedLines content.
Proof. unfold fallbackLines. by rewrite fallback_loop. Qed.

Lemma strippedLines_elems content :
  Forall (fun m => m <> [] /\ TrimSpace m = m) (strippedLines content).
Proof.
  apply Forall_forall. intros m Hm. unfold strippedLines in Hm.
  apply list_elem_of_filter in Hm as [Hne Hin]. split; [done|].
  apply list_elem_of_fmap in Hin as (y & -> & _). apply TrimSpace_idemp.
Qed.

Lemma trim_filter_id l :
  Forall (fun m => m <> [] /\ TrimSpace m = m) l ->
  filter (fun m : bytes => m <> []) (TrimSpace <$> l) = l.
Proof.
  induction 1 as [|m l [Hm Ht] _ IH]; [done|].
  rewrite fmap_cons, Ht, filter_cons_True by done. by rewrite IH.
Qed.

Lemma normalize_stripped content :
  normalizeMessages (strippedLines content) = dedupFirst (strippedLines content).
Proof.
  rewrite normalizeMessages_spec. unfold normalizeSpec.
  by rewrite trim_filter_id by apply strippedLines_elems.
Qed.

Lemma normalizeSpec_nil l :
  normalizeSpec l = [] <-> Forall (fun m => TrimSpace m = []) l.
Proof.
  unfold normalizeSpec. split.
  - intros H. apply Forall_forall. intros m Hm.
    destruct (decide (TrimSpace m = [])) as [|Hne]; [done|]. exfalso.
    assert (Hin : TrimSpace m ∈ dedupFirst (filter (fun m => m <> []) (TrimSpace <$> l))).
    { apply elem_of_dedupFirst, list_elem_of_filter. split; [done|].
      apply list_elem_of_fmap. by exists m. }
    rewrite H in Hin. by apply elem_of_nil in Hin.
  - intros H. induction H as [|m l Hm _ IH]; [done|].
    rewrite fmap_cons, Hm. by rewrite filter_cons_False by (intros Hn; by apply Hn).
Qed.

Lemma dedupFirst_nil_inv l : dedupFirst l = [] -> l = [].
Proof.
  intros H. destruct l as [|x l]; [done|]. exfalso.
  assert (Hx : x ∈ dedupFirst (x :: l)) by (apply elem_of_dedupFirst; left).
  rewrite H in Hx. by apply elem_of_nil in Hx.
Qed.

Section ParserFacts.
Variable Unmarshal : bytes -> suggestionsPayload * option error.

Lemma len_pos {A} (l : list A) : (0 <? len l) = true <-> l <> [].
Proof.
  unfold len. destruct l; simpl; split; intros H; try done; lia.
Qed.

Lemma len_zero {A} (l : list A) : (len l =? 0) = true <-> l = [].
Proof.
  unfold len. destruct l; simpl; split; intros H; try done; lia.
Qed.

Lemma parseSuggestions_empty content :
  TrimSpace content = [] ->
  parseSuggestions Unmarshal content = Err (errors_New "empty response from model").
Proof. intros H. unfold parseSuggestions. by rewrite H. Qed.

Lemma parseSuggestions_attempt1 content payload :
  TrimSpace content <> [] ->
  Unmarshal (TrimSpace content) = (payload, None) ->
  Messages payload <> [] ->
  parseSuggestions Unmarshal content = Ok (normalizeMessages (Messages payload)).
Proof.
  intros Hne Hu Hm. unfold parseSuggestions.
  rewrite bool_decide_eq_false_2 by done. rewrite Hu.
  rewrite bool_decide_eq_true_2 by done.
  by rewrite (proj2 (len_pos _) Hm).
Qed.

Lemma parseSuggestions_attempt2 content payload err :
  TrimSpace content <> [] ->
  Unmarshal (TrimSpace content) = (payload, err) ->
  err <> None \/ Messages payload = [] ->
  parseSuggestions Unmarshal content =
    if len (fallbackLines (TrimSpace content)) =? 0
    then Err (errors_New "could not parse suggestions")
    else Ok (normalizeMessages (fallbackLines (TrimSpace content))).
Proof.
  intros Hne Hu Hm. unfold parseSuggestions.
  rewrite bool_decide_eq_false_2 by done. rewrite Hu.
  assert (Hc : bool_decide (err = None) && (0 <? len (Messages payload)) = false).
  { destruct Hm as [Hm|Hm].
    - by rewrite bool_decide_eq_false_2.
    - rewrite Hm. apply andb_false_r. }
  by rewrite Hc.
Qed.

Lemma normalizeMessages_wellFormed l : wellFormedSuggestions (normalizeMessages l).
Proof.
  rewrite normalizeMessages_spec. split.
  - apply NoDup_dedupFirst.
  - apply normalizeSpec_elems.
Qed.

Lemma parseSuggestions_Ok_inv content msgs :
  parseSuggestions Unmarshal content = Ok msgs ->
  exists l, msgs = normalizeMessages l.
Proof.
  unfold parseSuggestions.
  destruct (bool_decide (TrimSpace content = [])); [done|].
  destruct (Unmarshal (TrimSpace content)) as [payload err].
  destruct (bool_decide (err = None) && (0 <? len (Messages payload))).
  - intros H. inversion H. by eexists.
  - destruct (len (fallbackLines (TrimSpace content)) =? 0); [done|].
    intros H. inversion H. by eexists.
Qed.

Lemma parseSuggestions_no_panic content why :
  parseSuggestions Unmarshal content <> Panic why.
Proof.
  unfold parseSuggestions.
  destruct (bool_decide (TrimSpace content = [])); [done|].
  destruct (Unmarshal (TrimSpace content)) as [payload err].
  destruct (bool_decide (err = None) && (0 <? len (Messages payload))); [done|].
  by destruct (len (fallbackLines (TrimSpace content)) =? 0).
Qed.

Lemma wellFormed_take n msgs :
  wellFormedSuggestions msgs -> wellFormedSuggestions (take n msgs).
Proof.
  intros [Hnd Hall]. split.
  - rewrite <- (take_drop n msgs) in Hnd. by apply NoDup_app in Hnd as [? _].
  - by apply Forall_take.
Qed.

Lemma requestSuggestions_Ok_inv n x msgs :
  0 <= n ->
  requestSuggestions Unmarshal n x = Ok msgs ->
  len msgs <= n /\ wellFormedSuggestions msgs.
Proof.
  intros Hn. unfold requestSuggestions.
  destruct x as [e|e|code body decoded]; [done|done|].
  destruct (400 <=? code); [done|]. destruct decoded as [e|out]; [done|].
  destruct (parseSuggestions Unmarshal (Content (Message out))) as [l|e|why] eqn:Hp;
    [|done|done].
  apply parseSuggestions_Ok_inv in Hp as [l0 ->].
  pose proof (normalizeMessages_wellFormed l0) as Hwf.
  destruct (Z.ltb_spec n (len (normalizeMessages l0))) as [Hlt|Hge].
  - unfold sliceTo. destruct (Z.ltb_spec n 0); [lia|].
    destruct (Z.ltb_spec (len (normalizeMessages l0)) n); [lia|]. simpl.
    intros Heq. inversion Heq. split.
    + unfold len in *. rewrite length_take. lia.
    + by apply wellFormed_take.
  - intros Heq. inversion Heq; subst. split; [lia|done].
Qed.

Lemma clampCount_spec count : clampCount count = Z.min 3 (Z.max 1 count).
Proof.
  unfold clampCount. destruct (Z.ltb_spec count 1).
  - destruct (Z.ltb_spec 3 1); lia.
  - destruct (Z.ltb_spec 3 count); lia.
Qed.

End ParserFacts.

(** ** JSON texts of plain messages *)

Lemma plainByte_spec c :
  plainByte c = true ->
  (byteZ c =? 0x22) = false /\ (byteZ c =? 0x5C) = false /\
  (byteZ c <? 0x20) = false /\ (byteZ c <? RuneSelf) = true.
Proof.
  unfold plainByte, RuneSelf. intros H.
  repeat (apply andb_true_iff in H as [H ?]).
  repeat split; try lia; try by apply negb_true_iff.
Qed.

Lemma scanString_plain s rest acc fuel :
  forallb plainByte s = true -> (length s < fuel)%nat ->
  Json.scanString fuel (s ++ QUOTE :: rest) acc = Some (acc ++ s, rest).
Proof.
  revert acc fuel. induction s as [|c s IH]; intros acc fuel Hp Hf.
  - destruct fuel as [|k]; [lia|]. simpl. by rewrite app_nil_r.
  - destruct fuel as [|k]; [simpl in Hf; lia|].
    simpl in Hp. apply andb_true_iff in Hp as [Hc Hs].
    destruct (plainByte_spec c Hc) as (H1 & H2 & H3 & H4).
    rewrite <- app_comm_cons. simpl. rewrite H1, H2, H3, H4.
    rewrite IH; [|done|simpl in Hf; lia]. by rewrite <- app_assoc.
Qed.

Lemma parseValue_quoted x rest fuel depth :
  forallb plainByte x = true ->
  Json.parseValue (S fuel) depth (quoted x ++ rest) = Some (Json.String x, rest).
Proof.
  intros Hx. unfold quoted. rewrite <- app_comm_cons, <- app_assoc.
  simpl. rewrite scanString_plain; [done|done|].
  rewrite length_app. simpl. lia.
Qed.

Lemma parseElements_plain l rest acc fuel depth :
  l <> [] -> Forall (fun x => forallb plainByte x = true) l ->
  (length l < fuel)%nat ->
  Json.parseElements fuel depth (commaSeparated l ++ str "]" ++ rest) acc =
    Some (acc ++ (Json.String <$> l), rest).
Proof.
  intros Hne Hall. revert acc fuel.
  induction Hall as [|x l Hx Hall IH]; intros acc fuel Hf; [done|].
  destruct fuel as [|[|k]]; [simpl in Hf; lia | simpl in Hf; lia |].
  destruct l as [|y l].
  - simpl commaSeparated.
    change (Json.parseElements (S (S k)) depth (quoted x ++ str "]" ++ rest) acc)
      with (match Json.parseValue (S k) depth (quoted x ++ str "]" ++ rest) with
            | None => None
            | Some (v, r) =>
              match Json.skipSpace r with
              | c :: t =>
                if byteZ c =? 0x2C then Json.parseElements (S k) depth t (acc ++ [v])
                else if byteZ c =? 0x5D then Some (acc ++ [v], t)
                else None
              | [] => None
              end
            end).
    rewrite parseValue_quoted by done. done.
  - change (commaSeparated (x :: y :: l))
      with (quoted x ++ str "," ++ commaSeparated (y :: l)).
    rewrite <- !app_assoc.
    change (Json.parseElements (S (S k)) depth
              (quoted x ++ str "," ++ commaSeparated (y :: l) ++ str "]" ++ rest) acc)
      with (match Json.parseValue (S k) depth
                    (quoted x ++ str "," ++ commaSeparated (y :: l) ++ str "]" ++ rest) with
            | None => None
            | Some (v, r) =>
              match Json.skipSpace r with
              | c :: t =>
                if byteZ c =? 0x2C then Json.parseElements (S k) depth t (acc ++ [v])
                else if byteZ c =? 0x5D then Some (acc ++ [v], t)
                else None
              | [] => None
              end
            end).
    rewrite parseValue_quoted by done.
    change (Json.skipSpace (str "," ++ commaSeparated (y :: l) ++ str "]" ++ rest))
      with ("," %char :: commaSeparated (y :: l) ++ str "]" ++ rest).
    change (byteZ ","%char =? 44) with true. cbv iota.
    rewrite IH; [|done|simpl in *; lia].
    rewrite <- app_assoc. done.
Qed.

Lemma storeElements_strings i old l :
  Json.storeElements i old (Json.String <$> l) = (l, None).
Proof.
  revert i. induction l as [|x l IH]; intros i; [done|].
  simpl. by rewrite IH.
Qed.

Lemma commaSeparated_length l : (length l <= length (commaSeparated l))%nat.
Proof.
  induction l as [|x [|y l] IH]; simpl in *; [lia| |].
  - rewrite length_app. simpl. lia.
  - rewrite length_app in *. simpl in *. rewrite !length_app in *. simpl in *. lia.
Qed.

Lemma commaSeparated_head l :
  l <> [] -> exists t, commaSeparated l = QUOTE :: t.
Proof.
  destruct l as [|x [|y l]]; [done| |]; intros _; simpl; by eexists.
Qed.

Lemma parseValue_array l rest fuel depth :
  l <> [] -> Forall (fun x => forallb plainByte x = true) l ->
  (length l < fuel)%nat -> depth + 1 <= Json.maxNestingDepth ->
  Json.parseValue (S fuel) depth (str "[" ++ commaSeparated l ++ str "]" ++ rest) =
    Some (Json.Array (Json.String <$> l), rest).
Proof.
  intros Hne Hall Hf Hd.
  pose proof (parseElements_plain l rest [] fuel (depth + 1) Hne Hall Hf) as Hel.
  destruct (commaSeparated_head l Hne) as [t Ht].
  simpl. destruct (Z.ltb_spec Json.maxNestingDepth (depth + 1)); [lia|].
  rewrite Ht in *. simpl in *. by rewrite Hel.
Qed.

Lemma parseValue_object l fuel :
  l <> [] -> Forall (fun x => forallb plainByte x = true) l ->
  (length l + 2 < fuel)%nat ->
  Json.parseValue (S fuel) 0 (encodeMessages l) =
    Some (Json.Object [(str "messages", Json.Array (Json.String <$> l))], []).
Proof.
  intros Hne Hall Hf. destruct fuel as [|[|k]]; [lia|lia|].
  pose proof (parseValue_array l (str "}") k 1 Hne Hall ltac:(lia) ltac:(done)) as Hv.
  unfold encodeMessages.
  change (jstr "{'messages':[" ++ commaSeparated l ++ str "]}")
    with ("{"%char :: quoted (str "messages") ++
          ":"%char :: str "[" ++ commaSeparated l ++ str "]" ++ str "}").
  set (arr := str "[" ++ commaSeparated l ++ str "]" ++ str "}") in *.
  clearbody arr. set (fk := S k) in *. clearbody fk.
  simpl. change (0 + 1) with 1. rewrite Hv. done.
Qed.

Lemma parse_encodeMessages l :
  l <> [] -> Forall (fun x => forallb plainByte x = true) l ->
  Json.parse (encodeMessages l) =
    Some (Json.Object [(str "messages", Json.Array (Json.String <$> l))]).
Proof.
  intros Hne Hall. unfold Json.parse.
  assert (Hlen : (length l + 15 <= length (encodeMessages l))%nat).
  { unfold encodeMessages. rewrite !length_app.
    pose proof (commaSeparated_length l). simpl. lia. }
  replace (2 * length (encodeMessages l) + 2)%nat
    with (S (2 * length (encodeMessages l) + 1))%nat by lia.
  rewrite parseValue_object; [done|done|done|lia].
Qed.

Lemma Unmarshal_encodeMessages l :
  l <> [] -> Forall (fun x => forallb plainByte x = true) l ->
  Json.Unmarshal (encodeMessages l) = ({| Messages := l |}, None).
Proof.
  intros Hne Hall. unfold Json.Unmarshal. rewrite parse_encodeMessages by done.
  simpl. rewrite storeElements_strings. done.
Qed.

Lemma TrimSpace_encodeMessages l : TrimSpace (encodeMessages l) = encodeMessages l.
Proof.
  apply TrimSpace_clean.
  - apply clean_start_ascii; reflexivity.
  - unfold encodeMessages.
    change (str "]}") with (str "]" ++ ["}"%char]). rewrite !app_assoc.
    apply clean_end_ascii; reflexivity.
Qed.

(** ** The selector *)

Lemma parseChoice_range s max idx :
  parseChoice s max = Ok idx -> 0 <= idx <= max - 1.
Proof.
  unfold parseChoice. destruct (len s =? 0); [done|].
  destruct (Fmt.Sscanf_d s) as [n| |]; [|done|done].
  destruct (Z.ltb_spec n 1); [done|]. destruct (Z.ltb_spec max n); [done|].
  simpl. intros Heq. inversion Heq. lia.
Qed.

Lemma index_in_bounds {A} (l : list A) i :
  0 <= i <= len l - 1 -> exists x, index l i = Ok x /\ l !! Z.to_nat i = Some x.
Proof.
  intros Hi. unfold index, len in *. destruct (Z.ltb_spec i 0); [lia|].
  destruct (l !! Z.to_nat i) as [x|] eqn:Hx; [by exists x|].
  apply lookup_ge_None in Hx. lia.
Qed.

Lemma parseChoice_ok s max n :
  Fmt.Sscanf_d s = Ok n -> 1 <= n <= max -> parseChoice s max = Ok (n - 1).
Proof.
  intros Hs Hn. unfold parseChoice.
  destruct s as [|c t]; [done|].
  replace (len (c :: t) =? 0) with false.
  2:{ unfold len. simpl. reflexivity. }
  rewrite Hs. destruct (Z.ltb_spec n 1); [lia|]. destruct (Z.ltb_spec max n); [lia|]. done.
Qed.

Lemma parseChoice_rejects s max :
  (forall n, Fmt.Sscanf_d s = Ok n -> n < 1 \/ max < n) ->
  exists e, parseChoice s max = Err e.
Proof.
  intros H. unfold parseChoice. destruct (len s =? 0); [by eexists|].
  destruct (Fmt.Sscanf_d s) as [n|e|why] eqn:Hs.
  - destruct (H n eq_refl).
    + destruct (Z.ltb_spec n 1); [by eexists|lia].
    + destruct (Z.ltb_spec max n); [rewrite orb_true_r; by eexists|lia].
  - by eexists.
  - exfalso. revert Hs. unfold Fmt.Sscanf_d.
    repeat match goal with
    | |- context [match ?x with _ => _ end] => destruct x
    end; try done.
    unfold Fmt.ParseInt.
    repeat match goal with
    | |- context [match ?x with _ => _ end] => destruct x
    end; done.
Qed.

Lemma EqualFold_e t :
  EqualFold t (str "e") = true -> t = str "e" \/ t = str "E".
Proof.
  unfold EqualFold. intros H. apply bool_decide_eq_true in H.
  destruct t as [|c [|d t]]; try done.
  simpl in H. inversion H as [Hc]. clear H.
  each_byte c; vm_compute in Hc; try discriminate; auto.
Qed.

Lemma Sscanf_not_e t n : Fmt.Sscanf_d t = Ok n -> EqualFold t (str "e") = false /\ t <> [].
Proof.
  intros H. split.
  - destruct (EqualFold t (str "e")) eqn:He; [|done].
    apply EqualFold_e in He as [->| ->]; vm_compute in H; done.
  - intros ->. vm_compute in H. done.
Qed.

Section SelectorFacts.
Variable stdin : nat -> bytes * option error.

Lemma chooseLoop_step k msgs c :
  chooseLoop stdin (S k) msgs c =
    let '(line, err) := stdin (reads c) in
    let c1 := afterRead c in
    match readFailure err with
    | Some e => Some (Err (Errorf_w "read input" e), c1)
    | None =>
      let line := TrimSpace line in
      if EqualFold line (str "e") then promptEdit stdin k c1
      else if bool_decide (line = []) then chooseLoop stdin k msgs c1
      else
        match parseChoice line (len msgs) with
        | Ok idx =>
          match index msgs idx with
          | Ok m => Some (Ok m, c1)
          | Err e => Some (Err e, c1)
          | Panic why => Some (Panic why, c1)
          end
        | _ => chooseLoop stdin k msgs (Println (str "Invalid choice. Try again.") c1)
        end
    end.
Proof.
  simpl. unfold ReadString. simpl. destruct (stdin (reads c)) as [line err]. done.
Qed.

Lemma promptEditLoop_step k c :
  promptEditLoop stdin (S k) c =
    let '(line, err) := stdin (reads c) in
    let c1 := afterRead c in
    match readFailure err with
    | Some e => Some (Err (Errorf_w "read input" e), c1)
    | None =>
      let line := TrimSpace line in
      if bool_decide (line = []) then promptEditLoop stdin k c1
      else Some (Ok line, c1)
    end.
Proof.
  simpl. unfold ReadString. simpl. destruct (stdin (reads c)) as [line err]. done.
Qed.

Lemma readFailure_inv err cause :
  readFailure err = Some cause -> err = Some cause /\ errors_Is_EOF cause = false.
Proof.
  destruct err as [e|]; simpl; [|done].
  destruct (errors_Is_EOF e) eqn:He; [done|]. intros H. by inversion H; subst.
Qed.

Lemma promptEditLoop_error fuel c e c' :
  promptEditLoop stdin fuel c = Some (Err e, c') -> readError stdin c c' e.
Proof.
  revert c. induction fuel as [|k IH]; intros c; [done|].
  rewrite promptEditLoop_step. destruct (stdin (reads c)) as [line err] eqn:Hin.
  cbv zeta. destruct (readFailure err) as [cause|] eqn:Hf.
  - intros H. inversion H; subst. apply readFailure_inv in Hf as (-> & Hc).
    exists (reads c), line, cause. simpl. repeat split; try done; lia.
  - destruct (bool_decide (TrimSpace line = [])); [|done].
    intros H. apply IH in H as (j & l & cause & Hj & ?). simpl in Hj.
    exists j, l, cause. split; [lia|done].
Qed.

Lemma promptEdit_error fuel c e c' :
  promptEdit stdin fuel c = Some (Err e, c') -> readError stdin c c' e.
Proof.
  unfold promptEdit. intros H. apply promptEditLoop_error in H. exact H.
Qed.

Lemma chooseLoop_error fuel msgs c e c' :
  chooseLoop stdin fuel msgs c = Some (Err e, c') -> readError stdin c c' e.
Proof.
  revert c. induction fuel as [|k IH]; intros c; [done|].
  rewrite chooseLoop_step. destruct (stdin (reads c)) as [line err] eqn:Hin.
  cbv zeta. destruct (readFailure err) as [cause|] eqn:Hf.
  - intros H. inversion H; subst. apply readFailure_inv in Hf as (-> & Hc).
    exists (reads c), line, cause. simpl. repeat split; try done; lia.
  - destruct (EqualFold (TrimSpace line) (str "e")).
    { intros H. apply promptEdit_error in H as (j & l & cause & Hj & ?).
      simpl in Hj. exists j, l, cause. split; [lia|done]. }
    destruct (bool_decide (TrimSpace line = [])).
    { intros H. apply IH in H as (j & l & cause & Hj & ?). simpl in Hj.
      exists j, l, cause. split; [lia|done]. }
    destruct (parseChoice (TrimSpace line) (len msgs)) as [idx|e0|why] eqn:Hp.
    + apply parseChoice_range in Hp.
      destruct (index_in_bounds msgs idx Hp) as (m & -> & _). done.
    + intros H. apply IH in H as (j & l & cause & Hj & ?). simpl in Hj.
      exists j, l, cause. split; [lia|done].
    + intros H. apply IH in H as (j & l & cause & Hj & ?). simpl in Hj.
      exists j, l, cause. split; [lia|done].
Qed.

Lemma promptEditLoop_no_panic fuel c why c' :
  promptEditLoop stdin fuel c <> Some (Panic why, c').
Proof.
  revert c. induction fuel as [|k IH]; intros c; [done|].
  rewrite promptEditLoop_step. destruct (stdin (reads c)) as [line err].
  cbv zeta. destruct (readFailure err); [done|].
  destruct (bool_decide (TrimSpace line = [])); [apply IH|done].
Qed.

Lemma chooseLoop_no_panic fuel msgs c why c' :
  chooseLoop stdin fuel msgs c <> Some (Panic why, c').
Proof.
  revert c. induction fuel as [|k IH]; intros c; [done|].
  rewrite chooseLoop_step. destruct (stdin (reads c)) as [line err].
  cbv zeta. destruct (readFailure err); [done|].
  destruct (EqualFold (TrimSpace line) (str "e")); [apply promptEditLoop_no_panic|].
  destruct (bool_decide (TrimSpace line = [])); [apply IH|].
  destruct (parseChoice (TrimSpace line) (len msgs)) as [idx|e0|w] eqn:Hp;
    [|apply IH|apply IH].
  apply parseChoice_range in Hp.
  destruct (index_in_bounds msgs idx Hp) as (m & -> & _). done.
Qed.

End SelectorFacts.

(** ** Numeric tokens under [Sscanf] *)

Lemma SkipSpace_token fuel c t :
  c ∈ Fmt.sign ++ Fmt.decimalDigits -> Fmt.SkipSpace (S fuel) (c :: t) = inr (c :: t).
Proof.
  intros Hc. simpl.
  assert (Hb : byteZ c < RuneSelf /\ (byteZ c =? 0x0D) = false /\
               (byteZ c =? 0x0A) = false /\ IsSpace (byteZ c) = false).
  { vm_compute in Hc. repeat (apply elem_of_cons in Hc as [->|Hc]; [by vm_compute|]).
    by apply elem_of_nil in Hc. }
  destruct Hb as (Hlt & Hcr & Hnl & Hsp).
  rewrite Decode_ascii by done. by rewrite Hcr, Hnl, Hsp.
Qed.

Lemma acceptAll_digits ds rest d :
  Fmt.acceptAll Fmt.decimalDigits rest = (d :: ds, []) ->
  exists c t, rest = c :: t /\ c ∈ Fmt.decimalDigits /\ d = c.
Proof.
  destruct rest as [|c t]; simpl; [done|].
  destruct (bool_decide (c ∈ Fmt.decimalDigits)) eqn:Hc; [|done].
  apply bool_decide_eq_true in Hc.
  destruct (Fmt.acceptAll Fmt.decimalDigits t). intros H. inversion H; subst.
  by exists d, t.
Qed.

Ltac byte_tests :=
  repeat match goal with
  | |- context [byteZ ?c =? ?k] =>
    let b := eval vm_compute in (byteZ c =? k) in
    change (byteZ c =? k) with b
  end.

Lemma numericToken_scanned t n :
  numericToken t = Some n -> - 2 ^ 63 <= n < 2 ^ 63 -> Fmt.Sscanf_d t = Ok n.
Proof.
  unfold numericToken. intros H Hn.
  destruct (Fmt.accept Fmt.sign t) as [sg rest] eqn:Ha.
  destruct (Fmt.acceptAll Fmt.decimalDigits rest) as [[|d ds] [|x xs]] eqn:Hd;
    try done.
  inversion H as [Hv]. clear H.
  destruct (acceptAll_digits _ _ _ Hd) as (c & t' & -> & Hc & ->).
  assert (Ht : exists c0 t0, t = c0 :: t0 /\ c0 ∈ Fmt.sign ++ Fmt.decimalDigits).
  { destruct t as [|c0 t0]; simpl in Ha; [by inversion Ha|].
    exists c0, t0. split; [done|].
    destruct (bool_decide (c0 ∈ Fmt.sign)) eqn:Hs.
    - apply bool_decide_eq_true in Hs. apply elem_of_app. by left.
    - inversion Ha; subst. apply elem_of_app. by right. }
  destruct Ht as (c0 & t0 & -> & Hc0).
  unfold Fmt.Sscanf_d. simpl length.
  rewrite SkipSpace_token by done. simpl length. rewrite SkipSpace_token by done.
  rewrite Ha, Hd. unfold Fmt.ParseInt.
  simpl in Ha. destruct (bool_decide (c0 ∈ Fmt.sign)) eqn:Hs.
  - inversion Ha; subst. apply bool_decide_eq_true in Hs.
    vm_compute in Hs. apply elem_of_cons in Hs as [->|Hs].
    { rewrite bool_decide_eq_false_2 in Hn |- * by done. simpl app.
      cbv iota beta. byte_tests. cbv iota beta zeta.
      destruct (Z.leb_spec (2 ^ 63) (Fmt.digitsValue (c :: ds))); [lia|done]. }
    apply elem_of_cons in Hs as [->|Hs]; [|by apply elem_of_nil in Hs].
    rewrite bool_decide_eq_true_2 in Hn |- * by done. simpl app.
    cbv iota beta. byte_tests. cbv iota beta zeta.
    destruct (Z.ltb_spec (2 ^ 63) (Fmt.digitsValue (c :: ds))); [lia|done].
  - inversion Ha; subst.
    rewrite bool_decide_eq_false_2 in Hn |- * by done.
    assert (Hb : (byteZ c =? 43) = false /\ (byteZ c =? 45) = false).
    { vm_compute in Hc. repeat (apply elem_of_cons in Hc as [->|Hc]; [by vm_compute|]).
      by apply elem_of_nil in Hc. }
    destruct Hb as [Hb1 Hb2]. simpl app. cbv iota beta. rewrite Hb1, Hb2.
    destruct (Z.leb_spec (2 ^ 63) (Fmt.digitsValue (c :: ds))); [lia|done].
Qed.

(** * The properties of the specification *)

(** ** The parser *)

(** C1.  When the trimmed input is accepted by the JSON decoder as an object
    whose [messages] has at least one entry, [parseSuggestions] succeeds and
    returns those entries trimmed, the empty ones dropped and exact
    duplicates collapsed to the first occurrence, in their order. *)
Theorem parseSuggestions_json_messages
    (Unmarshal : bytes -> suggestionsPayload * option error)
    (content : bytes) (payload : suggestionsPayload) :
  TrimSpace content <> [] ->
  Unmarshal (TrimSpace content) = (payload, None) ->
  Messages payload <> [] ->
  parseSuggestions Unmarshal content = Ok (normalizeSpec (Messages payload)).
Proof.
  intros Hne Hu Hm.
  rewrite (parseSuggestions_attempt1 Unmarshal content payload Hne Hu Hm).
  f_equal. apply normalizeMessages_spec.
Qed.

Lemma parseSuggestions_json_messages_witness :
  parseSuggestions Json.Unmarshal (jstr " {'messages':['a',' a ','b']} ") =
  Ok (normalizeSpec [str "a"; str " a "; str "b"]).
Proof.
  apply (parseSuggestions_json_messages Json.Unmarshal
           (jstr " {'messages':['a',' a ','b']} ")
           {| Messages := [str "a"; str " a "; str "b"] |}).
  - vm_compute. discriminate.
  - vm_compute. reflexivity.
  - simpl. discriminate.
Defined.

(** C2, as the code has it.  With a trimmed input that is not empty: when the
    JSON attempt fails or yields no entry and the fallback yields no line,
    the parser fails with the "could not parse" error; and it returns a
    successful result with zero suggestions exactly when the JSON attempt
    succeeds with at least one entry and every entry is blank. *)
Theorem parseSuggestions_zero_suggestions
    (Unmarshal : bytes -> suggestionsPayload * option error)
    (content : bytes) (payload : suggestionsPayload) (err : option error) :
  TrimSpace content <> [] ->
  Unmarshal (TrimSpace content) = (payload, err) ->
  ((err <> None \/ Messages payload = []) ->
   strippedLines (TrimSpace content) = [] ->
   parseSuggestions Unmarshal content =
     Err (errors_New "could not parse suggestions")) /\
  (parseSuggestions Unmarshal content = Ok [] <->
   err = None /\ Messages payload <> [] /\
   Forall (fun m => TrimSpace m = []) (Messages payload)).
Proof.
  intros Hne Hu. split.
  - intros Hm Hs.
    rewrite (parseSuggestions_attempt2 Unmarshal content payload err Hne Hu Hm).
    by rewrite fallbackLines_spec, Hs.
  - destruct err as [e|].
    { rewrite (parseSuggestions_attempt2 Unmarshal content payload (Some e) Hne Hu)
        by by left.
      rewrite fallbackLines_spec.
      destruct (len (strippedLines (TrimSpace content)) =? 0) eqn:Hl.
      - split; [done|]. by intros [? _].
      - split; [|by intros [? _]]. rewrite normalize_stripped. intros H.
        inversion H as [Hd]. apply dedupFirst_nil_inv in Hd.
        rewrite Hd in Hl. done. }
    destruct (decide (Messages payload = [])) as [Hm|Hm].
    { rewrite (parseSuggestions_attempt2 Unmarshal content payload None Hne Hu)
        by by right.
      rewrite fallbackLines_spec.
      destruct (len (strippedLines (TrimSpace content)) =? 0) eqn:Hl.
      - split; [done|]. by intros (_ & ? & _).
      - split; [|by intros (_ & ? & _)]. rewrite normalize_stripped. intros H.
        inversion H as [Hd]. apply dedupFirst_nil_inv in Hd.
        rewrite Hd in Hl. done. }
    rewrite (parseSuggestions_attempt1 Unmarshal content payload Hne Hu Hm).
    rewrite normalizeMessages_spec. split.
    + intros H. inversion H as [Hn]. rewrite Hn. apply normalizeSpec_nil in Hn. done.
    + intros (_ & _ & Hall). f_equal. by apply normalizeSpec_nil.
Qed.

Lemma parseSuggestions_zero_suggestions_witness :
  parseSuggestions Json.Unmarshal (str "- 1. ") =
    Err (errors_New "could not parse suggestions").
Proof.
  refine (proj1 (parseSuggestions_zero_suggestions Json.Unmarshal (str "- 1. ")
                   {| Messages := [] |} (Some (json_failure "invalid character"))
                   _ _) _ _).
  - vm_compute. discriminate.
  - vm_compute. reflexivity.
  - left. discriminate.
  - vm_compute. reflexivity.
Defined.

(** C2, the claim as stated fails: a JSON payload whose only entry is empty
    is parsed with success into zero suggestions. *)
Lemma parseSuggestions_blank_payload_is_success :
  TrimSpace (jstr "{'messages':['']}") = jstr "{'messages':['']}" /\
  Json.Unmarshal (jstr "{'messages':['']}") = ({| Messages := [[]] |}, None) /\
  parseSuggestions Json.Unmarshal (jstr "{'messages':['']}") = Ok [].
Proof. vm_compute. repeat split; reflexivity. Qed.

(** C3.  An input that is empty or white space only fails with the "empty
    response" error. *)
Theorem parseSuggestions_whitespace_only
    (Unmarshal : bytes -> suggestionsPayload * option error) (content : bytes) :
  whitespaceOnly content = true ->
  parseSuggestions Unmarshal content =
    Err (errors_New "empty response from model").
Proof.
  intros Hw. apply parseSuggestions_empty.
  apply Blank_TrimSpace. eapply spaceRunes_Blank. exact Hw.
Qed.

Lemma parseSuggestions_whitespace_only_witness :
  parseSuggestions Json.Unmarshal (str "  " ++ [TAB; NL; CR] ++ str " ") =
    Err (errors_New "empty response from model").
Proof.
  apply (parseSuggestions_whitespace_only Json.Unmarshal).
  vm_compute. reflexivity.
Defined.

(** C4, as the code has it.  When the JSON attempt is not taken, the parser
    splits the trimmed text into lines, strips and trims each, keeps the
    results that are not empty, in order and each once (the first occurrence);
    with no such result it fails with the "could not parse" error. *)
Theorem parseSuggestions_fallback
    (Unmarshal : bytes -> suggestionsPayload * option error)
    (content : bytes) (payload : suggestionsPayload) (err : option error) :
  TrimSpace content <> [] ->
  Unmarshal (TrimSpace content) = (payload, err) ->
  err <> None \/ Messages payload = [] ->
  parseSuggestions Unmarshal content =
    if bool_decide (strippedLines (TrimSpace content) = [])
    then Err (errors_New "could not parse suggestions")
    else Ok (dedupFirst (strippedLines (TrimSpace content))).
Proof.
  intros Hne Hu Hm.
  rewrite (parseSuggestions_attempt2 Unmarshal content payload err Hne Hu Hm).
  rewrite fallbackLines_spec.
  destruct (decide (strippedLines (TrimSpace content) = [])) as [He|Hn].
  - rewrite bool_decide_eq_true_2 by done. by rewrite He.
  - rewrite bool_decide_eq_false_2 by done.
    destruct (len (strippedLines (TrimSpace content)) =? 0) eqn:Hl.
    + apply len_zero in Hl. done.
    + by rewrite normalize_stripped.
Qed.

Lemma parseSuggestions_fallback_witness :
  parseSuggestions Json.Unmarshal (str "1. add x" ++ [NL] ++ str "2. fix y") =
    Ok [str "add x"; str "fix y"].
Proof.
  refine (eq_trans
    (parseSuggestions_fallback Json.Unmarshal
       (str "1. add x" ++ [NL] ++ str "2. fix y")
       {| Messages := [] |} (Some (json_failure "invalid character")) _ _ _) _).
  - vm_compute. discriminate.
  - vm_compute. reflexivity.
  - left. discriminate.
  - vm_compute. reflexivity.
Defined.

(** C4, the claim as stated fails: a line that repeats an earlier one is not
    kept. *)
Lemma parseSuggestions_fallback_drops_repeats :
  Json.Unmarshal (str "a" ++ [NL] ++ str "a") =
    ({| Messages := [] |}, Some (json_failure "invalid character")) /\
  strippedLines (TrimSpace (str "a" ++ [NL] ++ str "a")) = [str "a"; str "a"] /\
  parseSuggestions Json.Unmarshal (str "a" ++ [NL] ++ str "a") = Ok [str "a"].
Proof. vm_compute. repeat split; reflexivity. Qed.

(** C5.  Normalization is idempotent. *)
Theorem normalizeMessages_idempotent (l : list bytes) :
  normalizeMessages (normalizeMessages l) = normalizeMessages l.
Proof.
  rewrite !normalizeMessages_spec. apply normalizeSpec_fixed.
  - apply NoDup_dedupFirst.
  - apply normalizeSpec_elems.
Qed.

(** C6.  Whatever the [-n] flag and the response, the list that
    [requestSuggestions] returns is no longer than the count clamped to
    1..3. *)
Theorem requestSuggestions_capped
    (Unmarshal : bytes -> suggestionsPayload * option error)
    (count : Z) (x : exchange) (msgs : list bytes) :
  requestSuggestions Unmarshal (clampCount count) x = Ok msgs ->
  len msgs <= Z.min 3 (Z.max 1 count).
Proof.
  intros H. rewrite clampCount_spec in H.
  apply requestSuggestions_Ok_inv in H as [Hlen _]; [done|lia].
Qed.

Lemma requestSuggestions_capped_witness :
  len [str "a"; str "b"] <= Z.min 3 (Z.max 1 2).
Proof.
  apply (requestSuggestions_capped Json.Unmarshal 2
           (Response 200 []
              (inr {| Message := {| Role := str "assistant";
                                   Content := jstr "{'messages':['a','b','c']}" |} |}))).
  vm_compute. reflexivity.
Defined.

(** ** The selector *)

(** Blank lines are passed over by the edit loop; the first line that is not
    blank is returned trimmed. *)
Lemma promptEditLoop_skips (stdin : nat -> bytes * option error)
    (blanks : nat) (c : console) (fuel : nat) (line : bytes) (err : option error) :
  (forall i, (i < blanks)%nat ->
     readFailure (stdin (reads c + i)%nat).2 = None /\
     TrimSpace (stdin (reads c + i)%nat).1 = []) ->
  stdin (reads c + blanks)%nat = (line, err) ->
  readFailure err = None ->
  TrimSpace line <> [] ->
  exists c', promptEditLoop stdin (S (blanks + fuel)) c = Some (Ok (TrimSpace line), c') /\
             reads c' = S (reads c + blanks).
Proof.
  revert c. induction blanks as [|b IH]; intros c Hb Hl He Hne.
  - rewrite promptEditLoop_step. rewrite Nat.add_0_r in Hl. rewrite Hl.
    cbv zeta. rewrite He, bool_decide_eq_false_2 by done.
    eexists. split; [done|]. simpl. lia.
  - rewrite promptEditLoop_step.
    destruct (Hb 0%nat ltac:(lia)) as [Hf Ht]. rewrite Nat.add_0_r in Hf, Ht.
    destruct (stdin (reads c)) as [l0 e0]. simpl in Hf, Ht.
    cbv zeta. rewrite Hf, bool_decide_eq_true_2 by done.
    destruct (IH (afterRead c)) as (c' & Hc' & Hr).
    + intros i Hi. simpl. replace (S (reads c + i)) with (reads c + S i)%nat by lia.
      apply Hb. lia.
    + simpl. by replace (S (reads c + b)) with (reads c + S b)%nat by lia.
    + done.
    + done.
    + exists c'. split; [done|]. simpl in Hr. lia.
Qed.

(** C7, as the code has it.  In one round of the selector on a line that was
    read, with [t] the trimmed line: when [t] is a numeric token [n] between
    1 and the number of suggestions, suggestion [n] is returned, and so it is
    whenever scanning [t] as [%d] does (a sign, digits, and whatever follows
    left unread) gives such an [n]; on any other [t], not empty and not "e",
    the selector prints "Invalid choice. Try again." and goes on to prompt
    and read again. *)
Theorem chooseLoop_choice (stdin : nat -> bytes * option error)
    (k : nat) (msgs : list bytes) (c : console) (line : bytes) (err : option error) :
  stdin (reads c) = (line, err) ->
  readFailure err = None ->
  (forall n, numericToken (TrimSpace line) = Some n ->
     1 <= n <= len msgs -> n < 2 ^ 63 ->
     exists m, msgs !! Z.to_nat (n - 1) = Some m /\
               chooseLoop stdin (S k) msgs c = Some (Ok m, afterRead c)) /\
  (forall n, Fmt.Sscanf_d (TrimSpace line) = Ok n -> 1 <= n <= len msgs ->
     exists m, msgs !! Z.to_nat (n - 1) = Some m /\
               chooseLoop stdin (S k) msgs c = Some (Ok m, afterRead c)) /\
  (TrimSpace line <> [] -> EqualFold (TrimSpace line) (str "e") = false ->
   (forall n, Fmt.Sscanf_d (TrimSpace line) = Ok n -> n < 1 \/ len msgs < n) ->
   chooseLoop stdin (S k) msgs c =
     chooseLoop stdin k msgs (Println (str "Invalid choice. Try again.") (afterRead c))).
Proof.
  intros Hin Hf.
  assert (Hsel : forall n, Fmt.Sscanf_d (TrimSpace line) = Ok n ->
            1 <= n <= len msgs ->
            exists m, msgs !! Z.to_nat (n - 1) = Some m /\
                      chooseLoop stdin (S k) msgs c = Some (Ok m, afterRead c)).
  { intros n Hs Hn. destruct (Sscanf_not_e _ _ Hs) as [He Hne].
    pose proof (parseChoice_ok _ (len msgs) n Hs Hn) as Hp.
    destruct (index_in_bounds msgs (n - 1) ltac:(lia)) as (m & Hi & Hm).
    exists m. split; [done|].
    rewrite chooseLoop_step, Hin. cbv zeta.
    by rewrite Hf, He, bool_decide_eq_false_2, Hp, Hi by done. }
  split; [|split].
  - intros n Ht Hn Hmax. apply Hsel; [|done].
    apply numericToken_scanned; [done|lia].
  - exact Hsel.
  - intros Hne He Hrej.
    destruct (parseChoice_rejects _ (len msgs) Hrej) as [e Hp].
    rewrite chooseLoop_step, Hin. cbv zeta.
    by rewrite Hf, He, bool_decide_eq_false_2, Hp by done.
Qed.

Lemma chooseLoop_choice_witness :
  exists m, [str "a"; str "b"; str "c"] !! Z.to_nat (2 - 1) = Some m /\
    chooseLoop (stdinOf (str " 2" ++ [NL])) 1 [str "a"; str "b"; str "c"] console0 =
      Some (Ok m, afterRead console0).
Proof.
  apply (proj1 (chooseLoop_choice (stdinOf (str " 2" ++ [NL])) 0
                  [str "a"; str "b"; str "c"] console0 (str " 2" ++ [NL]) None
                  eq_refl eq_refl) 2).
  - vm_compute. reflexivity.
  - vm_compute. split; discriminate.
  - reflexivity.
Defined.

(** C7, the claim as stated fails: "2abc" is no numeric token, yet the
    selector takes it for the choice 2. *)
Lemma chooseMessage_accepts_trailing_text :
  TrimSpace (str "2abc" ++ [NL]) = str "2abc" /\
  numericToken (str "2abc") = None /\
  fst <$> chooseMessage (stdinOf (str "2abc" ++ [NL])) 1
            [str "a"; str "b"; str "c"] console0 = Some (Ok (str "b")).
Proof. vm_compute. repeat split; reflexivity. Qed.

(** C8, as the code has it.  A line that is "e" up to case, once trimmed,
    switches to edit mode; edit mode passes over the lines that are blank and
    returns the first line that is not, trimmed: the line as entered is the
    returned text between two texts of white space only. *)
Theorem edit_mode_returns_trimmed_line (stdin : nat -> bytes * option error)
    (msgs : list bytes) (c : console) (line0 : bytes) (err0 : option error)
    (blanks fuel : nat) (line : bytes) (err : option error) :
  stdin (reads c) = (line0, err0) ->
  readFailure err0 = None ->
  EqualFold (TrimSpace line0) (str "e") = true ->
  (forall i, (i < blanks)%nat ->
     readFailure (stdin (S (reads c) + i)%nat).2 = None /\
     TrimSpace (stdin (S (reads c) + i)%nat).1 = []) ->
  stdin (S (reads c) + blanks)%nat = (line, err) ->
  readFailure err = None ->
  TrimSpace line <> [] ->
  (exists c',
     chooseLoop stdin (S (S (blanks + fuel))) msgs c = Some (Ok (TrimSpace line), c') /\
     reads c' = S (S (reads c + blanks))) /\
  (exists p q, line = p ++ TrimSpace line ++ q /\
     whitespaceOnly p = true /\ whitespaceOnly q = true).
Proof.
  intros Hin0 Hf0 He Hb Hin Hf Hne. split.
  - rewrite chooseLoop_step, Hin0. cbv zeta. rewrite Hf0, He.
    unfold promptEdit.
    destruct (promptEditLoop_skips stdin blanks
                (Println (str "Enter commit message:") (afterRead c))
                fuel line err) as (c' & Hc' & Hr); try done.
    exists c'. split; [done|]. simpl in Hr. lia.
  - destruct (TrimSpace_infix line) as (p & q & Hpq & Hp & Hq).
    exists p, q. split; [done|]. split; by apply Blank_spaceRunes.
Qed.

Lemma edit_mode_returns_trimmed_line_witness :
  (exists c',
     chooseLoop (stdinOf (str "E" ++ [NL; NL] ++ str "  fix  bug " ++ [NL]))
       (S (S (1 + 0))) [str "a"] console0 = Some (Ok (str "fix  bug"), c') /\
     reads c' = S (S (reads console0 + 1))) /\
  (exists p q, str "  fix  bug " ++ [NL] = p ++ str "fix  bug" ++ q /\
     whitespaceOnly p = true /\ whitespaceOnly q = true).
Proof.
  apply (edit_mode_returns_trimmed_line
           (stdinOf (str "E" ++ [NL; NL] ++ str "  fix  bug " ++ [NL]))
           [str "a"] console0 (str "E" ++ [NL]) None 1 0
           (str "  fix  bug " ++ [NL]) None).
  - vm_compute. reflexivity.
  - reflexivity.
  - vm_compute. reflexivity.
  - intros i Hi. assert (i = 0%nat) as -> by lia. vm_compute. split; reflexivity.
  - vm_compute. reflexivity.
  - reflexivity.
  - vm_compute. discriminate.
Defined.

(** C8, the claim as stated fails: the line entered in edit mode is not
    returned verbatim, its leading and trailing white space is removed. *)
Lemma promptEdit_result_is_trimmed :
  stdinOf (str "e" ++ [NL] ++ str "  fix  bug " ++ [NL]) 1 =
    (str "  fix  bug " ++ [NL], None) /\
  fst <$> chooseMessage (stdinOf (str "e" ++ [NL] ++ str "  fix  bug " ++ [NL])) 2
            [str "a"] console0 = Some (Ok (str "fix  bug")).
Proof. vm_compute. split; reflexivity. Qed.

(** C9.  An error result of the selector, or of edit mode, is the read error
    of a call of [ReadString] that failed with something other than
    [io.EOF]; end of input alone gives no error result. *)
Theorem selector_error_is_read_failure (stdin : nat -> bytes * option error)
    (fuel : nat) (msgs : list bytes) (c c' : console) (e : error) :
  chooseMessage stdin fuel msgs c = Some (Err e, c') \/
  promptEdit stdin fuel c = Some (Err e, c') ->
  readError stdin c c' e.
Proof.
  intros [H|H].
  - unfold chooseMessage in H. apply chooseLoop_error in H.
    destruct H as (k & l & cause & Hk & Hrest). exists k, l, cause.
    split; [|done].
    assert (Hp : forall i ms c0, reads (printSuggestions i ms c0) = reads c0).
    { intros i ms. revert i. induction ms as [|m ms IH]; intros i c0; [done|].
      simpl. by rewrite IH. }
    simpl in Hk. rewrite Hp in Hk. simpl in Hk. done.
  - by apply promptEdit_error in H.
Qed.

Lemma selector_error_is_read_failure_witness :
  readError (fun _ => ([], Some (io_failure "input/output error")))
    console0
    {| reads := 1;
       stdout := str "Suggestions:" ++ [NL] ++ str "1. a" ++ [NL] ++
                 str "Choose 1-3 or type 'e' to edit:" ++ [NL] ++ str "> " |}
    (Errorf_w "read input" (io_failure "input/output error")).
Proof.
  apply (selector_error_is_read_failure
           (fun _ => ([], Some (io_failure "input/output error")))
           1 [str "a"]).
  left. vm_compute. reflexivity.
Defined.

(** C10.  An index that [parseChoice] returns lies in [0, max-1], so that
    [msgs[idx]] in [chooseMessage], where [max] is [len(msgs)], is within
    bounds. *)
Theorem parseChoice_index_in_bounds (s : bytes) (max idx : Z) :
  parseChoice s max = Ok idx ->
  0 <= idx <= max - 1 /\
  forall msgs : list bytes, len msgs = max -> exists m, index msgs idx = Ok m.
Proof.
  intros H. pose proof (parseChoice_range _ _ _ H) as Hr. split; [done|].
  intros msgs Hl. rewrite <- Hl in Hr.
  destruct (index_in_bounds msgs idx Hr) as (m & Hm & _). by exists m.
Qed.

Lemma parseChoice_index_in_bounds_witness :
  0 <= 1 <= 3 - 1 /\
  forall msgs : list bytes, len msgs = 3 -> exists m, index msgs 1 = Ok m.
Proof.
  apply (parseChoice_index_in_bounds (str "2") 3 1). vm_compute. reflexivity.
Defined.

(** * Further properties of the program *)

(** X1.  A JSON object [{"messages":[...]}] of one or more plain strings, as
    the trimmed input, is parsed into those strings normalized. *)
Theorem parseSuggestions_encoded (content : bytes) (l : list bytes) :
  TrimSpace content = encodeMessages l ->
  l <> [] ->
  Forall (fun x => forallb plainByte x = true) l ->
  parseSuggestions Json.Unmarshal content = Ok (normalizeSpec l).
Proof.
  intros Ht Hne Hall.
  rewrite (parseSuggestions_attempt1 Json.Unmarshal _ {| Messages := l |}).
  - by rewrite normalizeMessages_spec.
  - rewrite Ht. clear Ht. by destruct l.
  - rewrite Ht. by apply Unmarshal_encodeMessages.
  - done.
Qed.

Lemma parseSuggestions_encoded_witness :
  parseSuggestions Json.Unmarshal
    (str " " ++ encodeMessages [str "feat: add x"; str "fix: bug y"] ++ [NL]) =
  Ok (normalizeSpec [str "feat: add x"; str "fix: bug y"]).
Proof.
  apply (parseSuggestions_encoded
           (str " " ++ encodeMessages [str "feat: add x"; str "fix: bug y"] ++ [NL])
           [str "feat: add x"; str "fix: bug y"]).
  - vm_compute. reflexivity.
  - discriminate.
  - repeat constructor.
Defined.

(** X2.  Every list that [parseSuggestions] returns is a suggestion list: no
    entry twice, no entry empty or with white space around it. *)
Theorem parseSuggestions_wellFormed
    (Unmarshal : bytes -> suggestionsPayload * option error)
    (content : bytes) (msgs : list bytes) :
  parseSuggestions Unmarshal content = Ok msgs -> wellFormedSuggestions msgs.
Proof.
  intros H. apply parseSuggestions_Ok_inv in H as [l ->].
  apply normalizeMessages_wellFormed.
Qed.

Lemma parseSuggestions_wellFormed_witness :
  wellFormedSuggestions [str "add x"; str "fix y"].
Proof.
  apply (parseSuggestions_wellFormed Json.Unmarshal
           (str "1. add x" ++ [NL] ++ str "2. fix y" ++ [NL] ++ str "- add x")).
  vm_compute. reflexivity.
Defined.

(** X3.  What [main] goes on with is a suggestion list of at least one and at
    most the clamped count of entries. *)
Theorem mainSuggestions_shown
    (Unmarshal : bytes -> suggestionsPayload * option error)
    (count : Z) (x : exchange) (msgs : list bytes) :
  mainSuggestions Unmarshal count x = Ok msgs ->
  1 <= len msgs <= Z.min 3 (Z.max 1 count) /\ wellFormedSuggestions msgs.
Proof.
  unfold mainSuggestions.
  destruct (requestSuggestions Unmarshal (clampCount count) x) as [l|e|why] eqn:Hr;
    [|done|done].
  rewrite clampCount_spec in Hr.
  apply requestSuggestions_Ok_inv in Hr as [Hlen Hwf]; [|lia].
  destruct (Z.eqb_spec (len l) 0); [done|].
  intros Heq. inversion Heq; subst. split; [|done]. unfold len in *. lia.
Qed.

Lemma mainSuggestions_shown_witness :
  1 <= len [str "a"] <= Z.min 3 (Z.max 1 (-4)) /\ wellFormedSuggestions [str "a"].
Proof.
  apply (mainSuggestions_shown Json.Unmarshal (-4)
           (Response 200 []
              (inr {| Message := {| Role := str "assistant";
                                   Content := jstr "{'messages':['a','b','a']}" |} |}))).
  vm_compute. reflexivity.
Defined.

(** X4.  The selector does not panic: within any number of rounds it is
    still reading, or it has returned a message or a read error. *)
Theorem chooseMessage_no_panic (stdin : nat -> bytes * option error)
    (fuel : nat) (msgs : list bytes) (c : console) :
  chooseMessage stdin fuel msgs c = None \/
  exists c', (exists m, chooseMessage stdin fuel msgs c = Some (Ok m, c')) \/
             (exists e, chooseMessage stdin fuel msgs c = Some (Err e, c')).
Proof.
  destruct (chooseMessage stdin fuel msgs c) as [[[m|e|why] c']|] eqn:H.
  - right. exists c'. left. by exists m.
  - right. exists c'. right. by exists e.
  - exfalso. unfold chooseMessage in H. by apply chooseLoop_no_panic in H.
  - by left.
Qed.

(** X5.  At the end of input the selector does not return: when every read
    from some point on gives nothing but white space without a read error
    (as [io.EOF] with no data does), no number of rounds ends the loop. *)
Theorem chooseLoop_spins_at_EOF (stdin : nat -> bytes * option error)
    (fuel : nat) (msgs : list bytes) (c : console) :
  (forall k, (reads c <= k)%nat -> exists line err,
     stdin k = (line, err) /\ readFailure err = None /\ TrimSpace line = []) ->
  chooseLoop stdin fuel msgs c = None.
Proof.
  revert c. induction fuel as [|k IH]; intros c H; [done|].
  rewrite chooseLoop_step.
  destruct (H (reads c) ltac:(lia)) as (line & err & -> & Hf & Ht).
  cbv zeta. rewrite Hf, Ht. simpl.
  apply IH. intros j Hj. apply H. simpl in Hj. lia.
Qed.

Lemma chooseLoop_spins_at_EOF_witness :
  chooseLoop (stdinOf []) 1000 [str "a"; str "b"] console0 = None.
Proof.
  apply (chooseLoop_spins_at_EOF (stdinOf []) 1000 [str "a"; str "b"] console0).
  intros k _. exists [], (Some io_EOF). destruct k; repeat split.
Defined.

(** X6.  The "empty response" error is returned for the inputs of white
    space only, and for no other input. *)
Theorem parseSuggestions_empty_response_iff
    (Unmarshal : bytes -> suggestionsPayload * option error) (content : bytes) :
  parseSuggestions Unmarshal content = Err (errors_New "empty response from model")
  <-> whitespaceOnly content = true.
Proof.
  rewrite <- TrimSpace_nil_iff. split.
  - unfold parseSuggestions.
    destruct (decide (TrimSpace content = [])) as [|Hne]; [done|].
    rewrite bool_decide_eq_false_2 by done.
    destruct (Unmarshal (TrimSpace content)) as [payload err].
    destruct (bool_decide (err = None) && (0 <? len (Messages payload))); [done|].
    by destruct (len (fallbackLines (TrimSpace content)) =? 0).
  - apply parseSuggestions_empty.
Qed.

(** ** The parser, further *)

(** X7.  Normalization neither loses nor invents a suggestion: its result
    holds exactly the trimmed forms, other than the empty text, of the
    entries it is given. *)
Theorem normalizeMessages_elements (msgs : list bytes) (m : bytes) :
  m ∈ normalizeMessages msgs <->
  m <> [] /\ exists x, x ∈ msgs /\ TrimSpace x = m.
Proof.
  rewrite normalizeMessages_spec. unfold normalizeSpec.
  rewrite elem_of_dedupFirst, list_elem_of_filter, list_elem_of_fmap.
  split.
  - intros [Hne (x & -> & Hx)]. split; [done|]. by exists x.
  - intros [Hne (x & Hx & <-)]. split; [done|]. by exists x.
Qed.

Lemma Split_no_sep s sep piece : piece ∈ Split s sep -> sep ∉ piece.
Proof.
  revert piece. induction s as [|c t IH]; intros piece Hin; simpl in Hin.
  - apply list_elem_of_singleton in Hin as ->. by intros ?%elem_of_nil.
  - destruct (decide (c = sep)) as [->|Hc].
    + rewrite bool_decide_eq_true_2 in Hin by done.
      apply elem_of_cons in Hin as [->|Hin]; [by intros ?%elem_of_nil|by apply IH].
    + rewrite bool_decide_eq_false_2 in Hin by done.
      destruct (Split t sep) as [|p rest] eqn:Hs.
      * apply list_elem_of_singleton in Hin as ->.
        intros Hx. apply list_elem_of_singleton in Hx. congruence.
      * apply elem_of_cons in Hin as [->|Hin].
        -- intros Hx. apply elem_of_cons in Hx as [Hx|Hx]; [congruence|].
           revert Hx. apply IH. apply list_elem_of_here.
        -- apply IH. by apply list_elem_of_further.
Qed.

Lemma TrimLeft_suffix s cutset : exists p, s = p ++ TrimLeft s cutset.
Proof.
  induction s as [|c t [p IH]]; [by exists []|]. simpl.
  destruct (bool_decide (c ∈ cutset)); [|by exists []].
  exists (c :: p). simpl. by f_equal.
Qed.

Lemma stripLine_infix line : exists p q, line = p ++ stripLine line ++ q.
Proof.
  unfold stripLine. destruct (TrimLeft_suffix line bulletCutset) as [p0 Hp0].
  destruct (TrimSpace_infix (TrimLeft line bulletCutset)) as (p & q & Hpq & _).
  exists (p0 ++ p), q. rewrite <- app_assoc, <- Hpq. done.
Qed.

Lemma strippedLines_nil content :
  strippedLines content = [] <->
  Forall (fun line => whitespaceOnly (TrimLeft line bulletCutset) = true)
         (Split content NL).
Proof.
  unfold strippedLines. induction (Split content NL) as [|l ls IH]; [done|].
  rewrite fmap_cons, filter_cons, Forall_cons, <- TrimSpace_nil_iff.
  fold (stripLine l).
  destruct (decide (stripLine l <> [])) as [Hn|Hn].
  - split; [done|]. by intros [? _].
  - apply dec_stable in Hn. rewrite IH. split; [done|]. by intros [_ ?].
Qed.

(** X8.  When the text is not taken as JSON, every suggestion returned is a
    piece of one line of the trimmed text, and holds no newline. *)
Theorem parseSuggestions_fallback_single_lines
    (Unmarshal : bytes -> suggestionsPayload * option error)
    (content : bytes) (payload : suggestionsPayload) (err : option error)
    (msgs : list bytes) :
  Unmarshal (TrimSpace content) = (payload, err) ->
  err <> None \/ Messages payload = [] ->
  parseSuggestions Unmarshal content = Ok msgs ->
  Forall (fun m => (NL ∉ m) /\
            exists line p q, line ∈ Split (TrimSpace content) NL /\ line = p ++ m ++ q)
         msgs.
Proof.
  intros Hu Hfail Hok.
  assert (Hne : TrimSpace content <> []).
  { intros Hn. by rewrite (parseSuggestions_empty Unmarshal content Hn) in Hok. }
  rewrite (parseSuggestions_attempt2 Unmarshal _ _ _ Hne Hu Hfail) in Hok.
  destruct (len (fallbackLines (TrimSpace content)) =? 0); [done|].
  inversion Hok as [Hm]. clear Hok Hm.
  rewrite fallbackLines_spec, normalize_stripped.
  apply Forall_forall. intros m Hin.
  rewrite elem_of_dedupFirst in Hin. unfold strippedLines in Hin.
  apply list_elem_of_filter in Hin as [_ Hin].
  apply list_elem_of_fmap in Hin as (line & -> & Hline).
  destruct (stripLine_infix line) as (p & q & Hpq).
  split; [|by exists line, p, q].
  intros Hnl. apply (Split_no_sep _ _ _ Hline). rewrite Hpq.
  apply elem_of_app. right. apply elem_of_app. by left.
Qed.

Lemma parseSuggestions_fallback_single_lines_witness :
  Forall (fun m => (NL ∉ m) /\
            exists line p q,
              line ∈ Split (TrimSpace (str "1. add x" ++ [NL] ++ str "2. fix y")) NL /\
              line = p ++ m ++ q)
         [str "add x"; str "fix y"].
Proof.
  apply (parseSuggestions_fallback_single_lines Json.Unmarshal
           (str "1. add x" ++ [NL] ++ str "2. fix y") {| Messages := [] |}
           (Some (json_failure "invalid character"))).
  - vm_compute. reflexivity.
  - left. discriminate.
  - vm_compute. reflexivity.
Defined.

(** X9.  The "could not parse" error is returned exactly when the text is
    not blank, is not taken as JSON (the decoder fails or gives no entry),
    and every line of the trimmed text is made of bullet and numbering
    bytes followed by nothing but white space. *)
Theorem parseSuggestions_could_not_parse_iff
    (Unmarshal : bytes -> suggestionsPayload * option error)
    (content : bytes) (payload : suggestionsPayload) (err : option error) :
  Unmarshal (TrimSpace content) = (payload, err) ->
  (parseSuggestions Unmarshal content = Err (errors_New "could not parse suggestions")
   <->
   TrimSpace content <> [] /\
   (err <> None \/ Messages payload = []) /\
   Forall (fun line => whitespaceOnly (TrimLeft line bulletCutset) = true)
          (Split (TrimSpace content) NL)).
Proof.
  intros Hu. rewrite <- strippedLines_nil, <- fallbackLines_spec. split.
  - intros H.
    destruct (decide (TrimSpace content = [])) as [Hn|Hne].
    { by rewrite (parseSuggestions_empty Unmarshal content Hn) in H. }
    split; [done|].
    destruct (decide (err = None)) as [->|He].
    + destruct (decide (Messages payload = [])) as [Hm|Hm].
      * split; [by right|].
        rewrite (parseSuggestions_attempt2 Unmarshal _ _ _ Hne Hu) in H by by right.
        destruct (len (fallbackLines (TrimSpace content)) =? 0) eqn:Hl; [|done].
        by apply len_zero in Hl.
      * by rewrite (parseSuggestions_attempt1 Unmarshal _ _ Hne Hu Hm) in H.
    + split; [by left|].
      rewrite (parseSuggestions_attempt2 Unmarshal _ _ _ Hne Hu) in H by by left.
      destruct (len (fallbackLines (TrimSpace content)) =? 0) eqn:Hl; [|done].
      by apply len_zero in Hl.
  - intros (Hne & Hfail & Hl).
    rewrite (parseSuggestions_attempt2 Unmarshal _ _ _ Hne Hu Hfail), Hl. done.
Qed.

Lemma parseSuggestions_could_not_parse_iff_witness :
  parseSuggestions Json.Unmarshal (str "1." ++ [NL] ++ str "- 2.") =
    Err (errors_New "could not parse suggestions") <->
  TrimSpace (str "1." ++ [NL] ++ str "- 2.") <> [] /\
  (Some (json_failure "invalid character") <> None \/
   Messages {| Messages := [] |} = []) /\
  Forall (fun line => whitespaceOnly (TrimLeft line bulletCutset) = true)
         (Split (TrimSpace (str "1." ++ [NL] ++ str "- 2.")) NL).
Proof.
  apply (parseSuggestions_could_not_parse_iff Json.Unmarshal
           (str "1." ++ [NL] ++ str "- 2.")).
  vm_compute. reflexivity.
Defined.

Lemma Split_one s sep : sep ∉ s -> Split s sep = [s].
Proof.
  induction s as [|c t IH]; intros H; [done|]. simpl.
  rewrite bool_decide_eq_false_2.
  - rewrite IH; [done|]. intros Hin. apply H. by apply list_elem_of_further.
  - intros ->. apply H. apply list_elem_of_here.
Qed.

Lemma Split_line s rest sep :
  sep ∉ s -> Split (s ++ sep :: rest) sep = s :: Split rest sep.
Proof.
  induction s as [|c t IH]; intros H; simpl.
  - by rewrite bool_decide_eq_true_2.
  - rewrite bool_decide_eq_false_2.
    + rewrite IH; [done|]. intros Hin. apply H. by apply list_elem_of_further.
    + intros ->. apply H. apply list_elem_of_here.
Qed.

Lemma TrimLeft_bullet b t cutset :
  Forall (fun c => c ∈ cutset) b -> (forall c, head t = Some c -> c ∉ cutset) ->
  TrimLeft (b ++ t) cutset = t.
Proof.
  intros Hb Ht. induction Hb as [|c b Hc _ IH]; simpl.
  - destruct t as [|c t]; [done|]. simpl.
    by rewrite bool_decide_eq_false_2 by by apply Ht.
  - by rewrite bool_decide_eq_true_2.
Qed.

Lemma plainSubject_inv t :
  plainSubject t = true ->
  t <> [] /\ TrimSpace t = t /\ (NL ∉ t) /\
  (forall c, head t = Some c -> c ∉ bulletCutset).
Proof.
  unfold plainSubject. intros H.
  destruct (head t) as [c|] eqn:Hh; [|done].
  destruct (last t) as [d|] eqn:Hl; [|done].
  apply andb_true_iff in H as [H Hnl]. apply andb_true_iff in H as [H Hd].
  apply andb_true_iff in H as [Hc Hcut].
  apply negb_true_iff, bool_decide_eq_false in Hnl, Hcut.
  unfold visible in Hc, Hd.
  apply andb_true_iff in Hc as [Hc1 Hc2]. apply andb_true_iff in Hd as [Hd1 Hd2].
  apply Z.ltb_lt in Hc1, Hd1. apply negb_true_iff in Hc2, Hd2.
  split; [by destruct t|]. split; [|split; [done|]].
  - apply TrimSpace_clean.
    + destruct t as [|c0 t0]; [done|]. inversion Hh; subst. by apply clean_start_ascii.
    + apply last_Some in Hl as [front ->]. by apply clean_end_ascii.
  - intros c0 Hc0. by inversion Hc0; subst.
Qed.

Lemma bullet_no_NL b : Forall (fun c => c ∈ bulletCutset) b -> NL ∉ b.
Proof.
  intros H Hin. rewrite Forall_forall in H. apply H in Hin.
  apply list_elem_of_In in Hin. vm_compute in Hin. intuition discriminate.
Qed.

Lemma bulletItem_line it : bulletItem it -> NL ∉ it.1 ++ it.2.
Proof.
  intros [Hb Ht]. apply plainSubject_inv in Ht as (_ & _ & Hnl & _).
  intros Hin. apply elem_of_app in Hin as [Hin|Hin]; [|done].
  by apply bullet_no_NL in Hin.
Qed.

Lemma bulletItem_strip it : bulletItem it -> stripLine (it.1 ++ it.2) = it.2.
Proof.
  intros [Hb Ht]. apply plainSubject_inv in Ht as (_ & Htrim & _ & Hhead).
  unfold stripLine. by rewrite TrimLeft_bullet.
Qed.

Lemma Split_bulleted it rest :
  Forall bulletItem (it :: rest) ->
  Split (bulleted (it :: rest)) NL = (fun it => it.1 ++ it.2) <$> (it :: rest).
Proof.
  revert it. induction rest as [|it2 rest IH]; intros [b t] Hall.
  - simpl. apply Split_one. apply (bulletItem_line (b, t)). by inversion Hall.
  - change (bulleted ((b, t) :: it2 :: rest)) with
      (b ++ t ++ [NL] ++ bulleted (it2 :: rest)).
    rewrite app_assoc. cbn [app].
    inversion Hall as [|? ? Hit Hrest]; subst.
    rewrite Split_line by apply (bulletItem_line (b, t) Hit).
    rewrite IH by done. done.
Qed.

Lemma strippedLines_bulleted items :
  items <> [] -> Forall bulletItem items ->
  strippedLines (bulleted items) = items.*2.
Proof.
  intros Hne Hall. unfold strippedLines.
  destruct items as [|it rest]; [done|]. rewrite Split_bulleted by done.
  clear Hne. induction Hall as [|it0 l Hit _ IH]; [done|].
  rewrite !fmap_cons, filter_cons. cbn [fst snd].
  rewrite bulletItem_strip by done.
  destruct Hit as [_ Ht]. apply plainSubject_inv in Ht as (Hn & _).
  rewrite decide_True by done. by rewrite IH.
Qed.

Lemma bulleted_nonempty items :
  items <> [] -> Forall bulletItem items -> bulleted items <> [].
Proof.
  intros Hne Hall. destruct items as [|[b t] rest]; [done|].
  inversion Hall as [|? ? [_ Ht] _]; subst.
  apply plainSubject_inv in Ht as (Hn & _). simpl in Hn.
  destruct rest as [|it2 rest]; simpl; intros Heq;
    apply app_eq_nil in Heq as [_ Heq]; [done|].
  by apply app_eq_nil in Heq as [Heq _].
Qed.

Lemma normalizeMessages_trimmed l :
  Forall (fun m => m <> [] /\ TrimSpace m = m) l ->
  normalizeMessages l = dedupFirst l.
Proof.
  intros H. rewrite normalizeMessages_spec. unfold normalizeSpec.
  by rewrite trim_filter_id.
Qed.

(** X10.  The fallback reads a bulleted or numbered list back: when the
    trimmed text is such a list of plain subjects and is not taken as JSON,
    the suggestions are the subjects, each once, in order. *)
Theorem parseSuggestions_bulleted
    (Unmarshal : bytes -> suggestionsPayload * option error)
    (content : bytes) (items : list (bytes * bytes))
    (payload : suggestionsPayload) (err : option error) :
  TrimSpace content = bulleted items ->
  items <> [] ->
  Forall bulletItem items ->
  Unmarshal (TrimSpace content) = (payload, err) ->
  err <> None \/ Messages payload = [] ->
  parseSuggestions Unmarshal content = Ok (dedupFirst items.*2).
Proof.
  intros Hc Hne Hall Hu Hfail.
  rewrite (parseSuggestions_attempt2 Unmarshal content payload err); [|..|done].
  - rewrite Hc, fallbackLines_spec, strippedLines_bulleted by done.
    destruct (len_zero items.*2) as [Hz _].
    destruct (len items.*2 =? 0); [by destruct items; [|specialize (Hz eq_refl)]|].
    f_equal. apply normalizeMessages_trimmed.
    apply Forall_fmap. eapply Forall_impl; [exact Hall|].
    intros it [_ Ht]. apply plainSubject_inv in Ht as (? & ? & _). done.
  - rewrite Hc. by apply bulleted_nonempty.
  - done.
Qed.

Lemma parseSuggestions_bulleted_witness :
  parseSuggestions Json.Unmarshal
    (str "1. add x" ++ [NL] ++ str " - fix y" ++ [NL] ++ str "2. add x" ++ [NL]) =
  Ok (dedupFirst [str "add x"; str "fix y"; str "add x"]).
Proof.
  apply (parseSuggestions_bulleted Json.Unmarshal
           (str "1. add x" ++ [NL] ++ str " - fix y" ++ [NL] ++ str "2. add x" ++ [NL])
           [(str "1. ", str "add x"); (str " - ", str "fix y"); (str "2. ", str "add x")]
           {| Messages := [] |} (Some (json_failure "invalid character"))).
  - vm_compute. reflexivity.
  - discriminate.
  - repeat constructor;
      repeat first [apply list_elem_of_here | apply list_elem_of_further].
  - vm_compute. reflexivity.
  - left. discriminate.
Defined.

(** ** The request *)

Lemma requestSuggestions_Panic_inv
    (Unmarshal : bytes -> suggestionsPayload * option error) n x why :
  requestSuggestions Unmarshal n x = Panic why ->
  n < 0 /\
  exists StatusCode body out l,
    x = Response StatusCode body (inr out) /\ StatusCode < 400 /\
    parseSuggestions Unmarshal (Content (Message out)) = Ok l.
Proof.
  intros H. destruct x as [e|e|code body [e|out]]; simpl in H; try done.
  { by destruct (400 <=? code). }
  destruct (Z.leb_spec 400 code); [done|].
  destruct (parseSuggestions Unmarshal (Content (Message out))) as [l|e|why'] eqn:Hp;
    [|done|by apply parseSuggestions_no_panic in Hp].
  destruct (Z.ltb_spec n (len l)) as [Hlt|Hge]; [|done].
  unfold sliceTo in H. destruct (Z.ltb_spec n 0) as [Hneg|Hpos].
  - split; [done|]. by exists code, body, out, l.
  - destruct (Z.ltb_spec (len l) n); [lia|done].
Qed.

(** X11.  With a count that is not negative, [requestSuggestions] succeeds
    exactly when the response has a status below 400, its body decodes, and
    the content parses; the result is then the first [n] parsed suggestions
    (all of them when there are no more than [n]). *)
Theorem requestSuggestions_Ok_iff
    (Unmarshal : bytes -> suggestionsPayload * option error)
    (n : Z) (x : exchange) (msgs : list bytes) :
  0 <= n ->
  (requestSuggestions Unmarshal n x = Ok msgs <->
   exists StatusCode body out l,
     x = Response StatusCode body (inr out) /\ StatusCode < 400 /\
     parseSuggestions Unmarshal (Content (Message out)) = Ok l /\
     msgs = take (Z.to_nat n) l).
Proof.
  intros Hn. split.
  - destruct x as [e|e|code body [e|out]]; simpl; try done.
    { by destruct (400 <=? code). }
    destruct (Z.leb_spec 400 code); [done|].
    destruct (parseSuggestions Unmarshal (Content (Message out))) as [l|e|why] eqn:Hp;
      [|done|done].
    intros Hr. exists code, body, out, l.
    split; [done|]. split; [done|]. split; [done|].
    destruct (Z.ltb_spec n (len l)) as [Hlt|Hge].
    + unfold sliceTo in Hr.
      destruct (Z.ltb_spec n 0); [lia|]. destruct (Z.ltb_spec (len l) n); [lia|].
      simpl in Hr. congruence.
    + inversion Hr; subst. rewrite take_ge; [done|]. unfold len in Hge. lia.
  - intros (code & body & out & l & -> & Hc & Hp & ->). simpl.
    destruct (Z.leb_spec 400 code); [lia|]. rewrite Hp.
    destruct (Z.ltb_spec n (len l)) as [Hlt|Hge].
    + unfold sliceTo.
      destruct (Z.ltb_spec n 0); [lia|]. destruct (Z.ltb_spec (len l) n); [lia|]. done.
    + rewrite take_ge; [done|]. unfold len in Hge. lia.
Qed.

Lemma requestSuggestions_Ok_iff_witness :
  requestSuggestions Json.Unmarshal 1
    (Response 200 []
       (inr {| Message := {| Role := str "assistant";
                            Content := jstr "{'messages':['a','b']}" |} |})) =
    Ok [str "a"] <->
  exists StatusCode body out l,
    Response 200 []
      (inr {| Message := {| Role := str "assistant";
                           Content := jstr "{'messages':['a','b']}" |} |}) =
      Response StatusCode body (inr out) /\ StatusCode < 400 /\
    parseSuggestions Json.Unmarshal (Content (Message out)) = Ok l /\
    [str "a"] = take (Z.to_nat 1) l.
Proof.
  apply (requestSuggestions_Ok_iff Json.Unmarshal 1). lia.
Defined.

(** X12.  [requestSuggestions] panics, at [msgs[:n]], exactly when it is
    called with a negative count and the content of the response parses. *)
Theorem requestSuggestions_panics_iff
    (Unmarshal : bytes -> suggestionsPayload * option error) (n : Z) (x : exchange) :
  (exists why, requestSuggestions Unmarshal n x = Panic why) <->
  n < 0 /\
  exists StatusCode body out l,
    x = Response StatusCode body (inr out) /\ StatusCode < 400 /\
    parseSuggestions Unmarshal (Content (Message out)) = Ok l.
Proof.
  split.
  - intros [why H]. by apply requestSuggestions_Panic_inv in H.
  - intros (Hn & code & body & out & l & -> & Hc & Hp). simpl.
    destruct (Z.leb_spec 400 code); [lia|]. rewrite Hp.
    destruct (Z.ltb_spec n (len l)) as [Hlt|Hge]; [|unfold len in Hge; lia].
    unfold sliceTo. destruct (Z.ltb_spec n 0); [|lia]. simpl. by eexists.
Qed.

Lemma requestSuggestions_panics_iff_witness :
  exists why,
    requestSuggestions Json.Unmarshal (-1)
      (Response 200 []
         (inr {| Message := {| Role := str "assistant";
                              Content := jstr "{'messages':['a']}" |} |})) =
    Panic why.
Proof.
  apply (proj2 (requestSuggestions_panics_iff Json.Unmarshal (-1)
                  (Response 200 []
                     (inr {| Message := {| Role := str "assistant";
                                          Content := jstr "{'messages':['a']}" |} |})))).
  split; [lia|].
  exists 200, [],
    {| Message := {| Role := str "assistant"; Content := jstr "{'messages':['a']}" |} |},
    [str "a"].
  split; [reflexivity|]. split; [lia|]. vm_compute. reflexivity.
Defined.

Lemma trimRightLoop_keep fuel s cutset :
  (forall c, last s = Some c -> c ∉ cutset) -> trimRightLoop fuel s cutset = s.
Proof.
  intros H. destruct fuel as [|k]; [done|]. simpl.
  destruct (last s) as [c|] eqn:Hl; [|done].
  by rewrite bool_decide_eq_false_2 by by apply H.
Qed.

Lemma trimRightLoop_snoc k s c cutset :
  c ∈ cutset -> trimRightLoop (S k) (s ++ [c]) cutset = trimRightLoop k s cutset.
Proof.
  intros Hc. simpl. rewrite last_snoc, bool_decide_eq_true_2 by done.
  rewrite length_app. simpl.
  replace (length s + 1 - 1)%nat with (length s) by lia.
  by rewrite take_app_length.
Qed.

Lemma TrimRight_replicate s c k :
  last s <> Some c -> TrimRight (s ++ replicate k c) [c] = s.
Proof.
  intros Hs. unfold TrimRight. induction k as [|k IH].
  - simpl. rewrite app_nil_r. apply trimRightLoop_keep.
    intros x Hx Hin. apply list_elem_of_singleton in Hin. congruence.
  - rewrite replicate_S_end, app_assoc, length_app. simpl.
    rewrite Nat.add_1_r, trimRightLoop_snoc by apply list_elem_of_here. done.
Qed.

(** X13.  The URL of the request is the endpoint with "/api/chat" after it,
    whatever number of slashes the endpoint is given with at its end. *)
Theorem chatURL_trailing_slashes (endpoint : bytes) (k : nat) :
  last endpoint <> Some "/"%char ->
  chatURL (endpoint ++ replicate k "/"%char) = endpoint ++ str "/api/chat".
Proof. intros H. unfold chatURL. by rewrite (TrimRight_replicate _ "/"%char). Qed.

Lemma chatURL_trailing_slashes_witness :
  chatURL (str "http://localhost:11434//") = str "http://localhost:11434/api/chat".
Proof.
  apply (chatURL_trailing_slashes (str "http://localhost:11434") 2).
  vm_compute. discriminate.
Defined.

(** X14.  [envOr] takes a variable that is unset, empty or blank for absent
    and gives the fallback; any other value is given trimmed, and is then
    not empty. *)
Theorem envOr_trimmed (Getenv : bytes -> bytes) (key fallback : bytes) :
  (whitespaceOnly (Getenv key) = true -> envOr Getenv key fallback = fallback) /\
  (whitespaceOnly (Getenv key) = false ->
     envOr Getenv key fallback = TrimSpace (Getenv key) /\
     envOr Getenv key fallback <> [] /\
     TrimSpace (envOr Getenv key fallback) = envOr Getenv key fallback).
Proof.
  unfold envOr. split; intros H.
  - apply TrimSpace_nil_iff in H. rewrite H. done.
  - assert (Hne : TrimSpace (Getenv key) <> []).
    { intros Hn. apply TrimSpace_nil_iff in Hn. congruence. }
    rewrite bool_decide_eq_true_2 by done. by rewrite TrimSpace_idemp.
Qed.

(** ** The selector, further *)

Lemma digits_of_uint_acc d acc :
  foldl (fun acc c => acc * 10 + (byteZ c - 0x30)) (Z.pos acc)
        (str (NilEmpty.string_of_uint d)) =
  Z.pos (Pos.of_uint_acc d acc).
Proof.
  revert acc. induction d; intros acc; simpl; [done|..];
    rewrite <- IHd; f_equal; vm_compute byteZ; lia.
Qed.

Lemma digits_of_uint d :
  Fmt.digitsValue (str (NilEmpty.string_of_uint d)) = Z.of_N (Pos.of_uint d).
Proof.
  unfold Fmt.digitsValue. induction d; simpl; [done|..];
    try (rewrite <- digits_of_uint_acc; f_equal; vm_compute byteZ; lia).
  rewrite <- IHd. f_equal.
Qed.

Lemma uint_digits d :
  Forall (fun c => c ∈ Fmt.decimalDigits) (str (NilEmpty.string_of_uint d)).
Proof.
  induction d; simpl; constructor; try done;
    unfold Fmt.decimalDigits; simpl;
    repeat first [apply list_elem_of_here | apply list_elem_of_further].
Qed.

Lemma acceptAll_all ok ds :
  Forall (fun c => c ∈ ok) ds -> Fmt.acceptAll ok ds = (ds, []).
Proof.
  induction 1 as [|c ds Hc _ IH]; simpl; [done|].
  by rewrite bool_decide_eq_true_2, IH.
Qed.

Lemma itoa_pos p : Fmt.itoa (Z.pos p) = str (NilEmpty.string_of_uint (Pos.to_uint p)).
Proof.
  unfold Fmt.itoa. simpl.
  pose proof (DecimalPos.Unsigned.to_uint_nonnil p) as Hn.
  by destruct (Pos.to_uint p).
Qed.

Lemma numericToken_itoa n : 0 < n -> numericToken (Fmt.itoa n) = Some n.
Proof.
  intros Hn. destruct n as [|p|p]; try lia. rewrite itoa_pos.
  pose proof (uint_digits (Pos.to_uint p)) as Hd.
  pose proof (digits_of_uint (Pos.to_uint p)) as Hv.
  rewrite DecimalPos.Unsigned.of_to in Hv.
  pose proof (DecimalPos.Unsigned.to_uint_nonnil p) as Hnn.
  destruct (str (NilEmpty.string_of_uint (Pos.to_uint p))) as [|c ds] eqn:Hs.
  { destruct (Pos.to_uint p); simpl in Hs; done. }
  unfold numericToken, Fmt.accept.
  assert (Hc : c ∉ Fmt.sign).
  { inversion Hd as [|? ? Hc0 _]; subst. intros Hin.
    apply list_elem_of_In in Hc0, Hin. simpl in Hc0, Hin.
    intuition (subst; discriminate). }
  rewrite bool_decide_eq_false_2 by done.
  rewrite acceptAll_all by done.
  rewrite bool_decide_eq_false_2 by done. by rewrite Hv.
Qed.

Lemma Sscanf_itoa n : 0 < n < 2 ^ 63 -> Fmt.Sscanf_d (Fmt.itoa n) = Ok n.
Proof. intros Hn. apply numericToken_scanned; [apply numericToken_itoa|]; lia. Qed.

Lemma printSuggestions_reads i msgs c :
  reads (printSuggestions i msgs c) = reads c.
Proof.
  revert i c. induction msgs as [|m ms IH]; intros i c; [done|]. simpl. by rewrite IH.
Qed.

Lemma printSuggestions_stdout i msgs c :
  exists out, stdout (printSuggestions i msgs c) = stdout c ++ out /\
    forall (j : nat) m, msgs !! j = Some m ->
      exists before after,
        out = before ++ Fmt.itoa (i + Z.of_nat j + 1) ++ str ". " ++ m ++ [NL] ++ after.
Proof.
  revert i c. induction msgs as [|m0 ms IH]; intros i c.
  - exists []. split; [by rewrite app_nil_r|]. intros j m Hj. done.
  - destruct (IH (i + 1) (Print (Fmt.itoa (i + 1) ++ str ". " ++ m0 ++ [NL]) c))
      as (out & Hout & Hl).
    exists ((Fmt.itoa (i + 1) ++ str ". " ++ m0 ++ [NL]) ++ out). split.
    + change (printSuggestions i (m0 :: ms) c) with
        (printSuggestions (i + 1) ms
           (Print (Fmt.itoa (i + 1) ++ str ". " ++ m0 ++ [NL]) c)).
      rewrite Hout. cbn [stdout Print]. by rewrite <- app_assoc.
    + intros [|j] m Hj.
      * inversion Hj; subst. exists [], out.
        replace (i + Z.of_nat 0 + 1) with (i + 1) by lia. by rewrite <- ?app_assoc.
      * simpl in Hj. destruct (Hl j m Hj) as (b & a & ->).
        exists ((Fmt.itoa (i + 1) ++ str ". " ++ m0 ++ [NL]) ++ b), a.
        replace (i + 1 + Z.of_nat j + 1) with (i + Z.of_nat (S j) + 1) by lia.
        by rewrite <- ?app_assoc.
Qed.

Lemma chooseLoop_select (stdin : nat -> bytes * option error)
    (k : nat) (msgs : list bytes) (c : console) (j : nat) (m line : bytes)
    (err : option error) :
  msgs !! j = Some m ->
  len msgs < 2 ^ 63 ->
  stdin (reads c) = (line, err) ->
  readFailure err = None ->
  TrimSpace line = Fmt.itoa (Z.of_nat j + 1) ->
  chooseLoop stdin (S k) msgs c = Some (Ok m, afterRead c).
Proof.
  intros Hj Hlen Hin Hf Ht.
  pose proof (lookup_lt_Some _ _ _ Hj) as Hlt.
  assert (Hs : Fmt.Sscanf_d (TrimSpace line) = Ok (Z.of_nat j + 1)).
  { rewrite Ht. apply Sscanf_itoa. unfold len in Hlen. lia. }
  destruct (Sscanf_not_e _ _ Hs) as [He Hne].
  pose proof (parseChoice_ok _ (len msgs) _ Hs ltac:(unfold len; lia)) as Hp.
  destruct (index_in_bounds msgs (Z.of_nat j + 1 - 1) ltac:(unfold len; lia))
    as (m' & Hi & Hm).
  replace (Z.to_nat (Z.of_nat j + 1 - 1)) with j in Hm by lia.
  assert (m' = m) as -> by congruence.
  rewrite chooseLoop_step, Hin. cbv zeta.
  by rewrite Hf, He, bool_decide_eq_false_2, Hp, Hi by done.
Qed.

(** X15.  The number that the listing shows in front of a suggestion, typed
    back as the first line, selects that suggestion: the listing holds the
    line "j+1. m" for the entry [m] at index [j], and the selector returns
    [m] after that one read. *)
Theorem chooseMessage_label_round_trip (stdin : nat -> bytes * option error)
    (k : nat) (msgs : list bytes) (c : console) (j : nat) (m line : bytes)
    (err : option error) :
  msgs !! j = Some m ->
  len msgs < 2 ^ 63 ->
  stdin (reads c) = (line, err) ->
  readFailure err = None ->
  TrimSpace line = Fmt.itoa (Z.of_nat j + 1) ->
  exists c' shown,
    chooseMessage stdin (S k) msgs c = Some (Ok m, c') /\
    reads c' = S (reads c) /\
    stdout c' = stdout c ++ shown ++ str "> " /\
    exists before after,
      shown = before ++ Fmt.itoa (Z.of_nat j + 1) ++ str ". " ++ m ++ [NL] ++ after.
Proof.
  intros Hj Hlen Hin Hf Ht. unfold chooseMessage.
  set (c1 := Println (str "Suggestions:") c).
  destruct (printSuggestions_stdout 0 msgs c1) as (out & Hout & Hl).
  destruct (Hl j m Hj) as (b & a & Hba).
  set (c2 := Println _ (printSuggestions 0 msgs c1)).
  assert (Hr : reads c2 = reads c).
  { unfold c2. simpl. by rewrite printSuggestions_reads. }
  rewrite (chooseLoop_select stdin k msgs c2 j m line err) by (by rewrite ?Hr).
  exists (afterRead c2),
    ((str "Suggestions:" ++ [NL]) ++ out ++ str "Choose 1-3 or type 'e' to edit:" ++ [NL]).
  split; [done|]. split; [by rewrite <- Hr|]. split.
  - unfold c2, afterRead, Println, Print. cbn [stdout]. rewrite Hout.
    unfold c1, Println, Print. cbn [stdout]. by rewrite <- !app_assoc.
  - exists ((str "Suggestions:" ++ [NL]) ++ b),
      (a ++ str "Choose 1-3 or type 'e' to edit:" ++ [NL]).
    rewrite Hba. by rewrite <- !app_assoc.
Qed.

Lemma chooseMessage_label_round_trip_witness :
  exists c' shown,
    chooseMessage (stdinOf (str "2" ++ [NL])) 1 [str "a"; str "b"; str "c"] console0 =
      Some (Ok (str "b"), c') /\
    reads c' = S (reads console0) /\
    stdout c' = stdout console0 ++ shown ++ str "> " /\
    exists before after,
      shown = before ++ Fmt.itoa (Z.of_nat 1 + 1) ++ str ". " ++ str "b" ++ [NL] ++ after.
Proof.
  apply (chooseMessage_label_round_trip (stdinOf (str "2" ++ [NL])) 0
           [str "a"; str "b"; str "c"] console0 1 (str "b") (str "2" ++ [NL]) None).
  - reflexivity.
  - vm_compute. reflexivity.
  - vm_compute. reflexivity.
  - reflexivity.
  - vm_compute. reflexivity.
Defined.

Section SelectorResults.
Variable stdin : nat -> bytes * option error.



End SelectorResults.



(** ** The run of [main] *)

Section ProgramFacts.
Variable Unmarshal : bytes -> suggestionsPayload * option error.


Lemma mainSuggestions_Ok_inv count x msgs :
  mainSuggestions Unmarshal count x = Ok msgs ->
  1 <= len msgs <= 3 /\ wellFormedSuggestions msgs /\ forall e, x <> MarshalFails e.
Proof.
  unfold mainSuggestions.
  destruct (requestSuggestions Unmarshal (clampCount count) x) as [l|e|why] eqn:Hr;
    [|done|done].
  assert (Hx : forall e, x <> MarshalFails e) by (intros e ->; done).
  rewrite clampCount_spec in Hr.
  apply requestSuggestions_Ok_inv in Hr as [Hlen Hwf]; [|lia].
  destruct (Z.eqb_spec (len l) 0); [done|].
  intros Heq. inversion Heq; subst. split; [|done]. unfold len in *. lia.
Qed.


Variable w : world.
Variable a : flags.

(** The run of [main] from [process0], branch by branch. *)
Lemma main_unfold fuel :
  main Unmarshal w a fuel process0 =
    match revParse w with
    | Some _ =>
      Some (fatal (errors_New "not a git repository")
              {| con := console0; stderr := []; trace := [gitRevParse] |})
    | None =>
      match diffStaged w with
      | (_, Some e) =>
        Some (fatal (Errorf_w "git diff --staged failed" e)
                {| con := console0; stderr := []; trace := [gitRevParse; gitDiff] |})
      | (diff, None) =>
        if bool_decide (TrimSpace diff = []) then
          Some (fatal (errors_New "no staged changes (git diff --staged is empty)")
                  {| con := console0; stderr := []; trace := [gitRevParse; gitDiff] |})
        else
          match diffStat w with
          | (_, Some e) =>
            Some (fatal (Errorf_w "git diff --staged --stat failed" e)
                    {| con := console0; stderr := [];
                       trace := [gitRevParse; gitDiff; gitDiffStat] |})
          | (stat, None) =>
            let sent :=
              match answerOf w a with
              | MarshalFails _ => [gitRevParse; gitDiff; gitDiffStat]
              | _ => [gitRevParse; gitDiff; gitDiffStat; postOf w a]
              end in
            match mainSuggestions Unmarshal (countOf a) (answerOf w a) with
            | Err e => Some (fatal e {| con := console0; stderr := []; trace := sent |})
            | Panic why =>
              Some (Panicked why, {| con := console0; stderr := []; trace := sent |})
            | Ok msgs =>
              match chooseMessage (stdin w) fuel msgs console0 with
              | None => None
              | Some (Err e, c) =>
                Some (fatal e {| con := c; stderr := []; trace := sent |})
              | Some (Panic why, c) =>
                Some (Panicked why, {| con := c; stderr := []; trace := sent |})
              | Some (Ok chosen, c) =>
                let '(out, errout, err) := commit w chosen in
                match err with
                | Some e =>
                  Some (fatal e {| con := Print out c; stderr := errout;
                                   trace := sent ++ [gitCommitOf chosen] |})
                | None =>
                  Some (Exited 0,
                        {| con := Println (str "Committed: " ++ chosen) (Print out c);
                           stderr := errout;
                           trace := sent ++ [gitCommitOf chosen] |})
                end
              end
            end
          end
      end
    end.
Proof.
  unfold main, ensureGitRepo, stagedDiff, stagedDiffStat, gitCommit, answerOf, postOf,
    requestOf, endpointOf, modelOf, countOf, timeoutOf, run, process0.
  cbn [con stderr trace app].
  destruct (revParse w); [done|].
  destruct (diffStaged w) as [diff [e|]]; [done|]. cbn [fst].
  destruct (bool_decide (TrimSpace diff = [])); [done|].
  destruct (diffStat w) as [stat [e|]]; [done|]. cbn [fst].
  set (x := server w _ _ _).
  destruct (mainSuggestions Unmarshal _ x) as [msgs|e|why] eqn:Hm.
  - destruct x; [by simpl in Hm|..]; cbn [con stderr trace app];
      (destruct (chooseMessage (stdin w) fuel msgs console0) as [[[m|e'|why] c]|];
       [|done..]);
      by destruct (commit w m) as [[out errout] [e'|]].
  - by destruct x.
  - by destruct x.
Qed.

Lemma sent_post x :
  (forall e, x <> MarshalFails e) ->
  match x with
  | MarshalFails _ => [gitRevParse; gitDiff; gitDiffStat]
  | _ => [gitRevParse; gitDiff; gitDiffStat; postOf w a]
  end = [gitRevParse; gitDiff; gitDiffStat; postOf w a].
Proof. intros Hx. destruct x as [e| |]; [by destruct (Hx e)|done..]. Qed.

End ProgramFacts.

Lemma not_blank s : TrimSpace s <> [] -> whitespaceOnly s = false.
Proof.
  intros H. destruct (whitespaceOnly s) eqn:Hw; [|done].
  by apply TrimSpace_nil_iff in Hw.
Qed.



(** Membership of an event in a trace that is written out. *)
Ltac in_trace H :=
  repeat first
    [ apply elem_of_nil in H; contradiction
    | apply elem_of_app in H as [H|H]
    | apply elem_of_cons in H as [H|H]; [try discriminate H|] ].

(** X17.  Outside a repository [main] stops at once, for any command line
    and input: it has run [git rev-parse --git-dir] only, writes
    "error: not a git repository" to standard error, whatever the cause
    reported by [git], and exits with status 1. *)
Theorem main_not_a_repository
    (Unmarshal : bytes -> suggestionsPayload * option error)
    (w : world) (a : flags) (fuel : nat) (cause : error) :
  revParse w = Some cause ->
  main Unmarshal w a fuel process0 =
    Some (Exited 1,
          {| con := console0;
             stderr := str "error: not a git repository" ++ [NL];
             trace := [gitRevParse] |}).
Proof. intros H. by rewrite main_unfold, H. Qed.

Lemma main_not_a_repository_witness :
  main Json.Unmarshal
    (exampleWorld (Some (errors_New "exit status 128")) [] []) noFlags 0 process0 =
    Some (Exited 1,
          {| con := console0;
             stderr := str "error: not a git repository" ++ [NL];
             trace := [gitRevParse] |}).
Proof.
  apply (main_not_a_repository Json.Unmarshal
           (exampleWorld (Some (errors_New "exit status 128")) [] []) noFlags 0
           (errors_New "exit status 128")).
  reflexivity.
Defined.

(** X18.  With nothing staged (the output of [git diff --staged] is empty or
    blank) [main] stops after the two [git] commands, with the message
    "error: no staged changes (git diff --staged is empty)" and status 1:
    no request is made and nothing is read or printed. *)
Theorem main_nothing_staged
    (Unmarshal : bytes -> suggestionsPayload * option error)
    (w : world) (a : flags) (fuel : nat) (diff : bytes) :
  revParse w = None ->
  diffStaged w = (diff, None) ->
  whitespaceOnly diff = true ->
  main Unmarshal w a fuel process0 =
    Some (Exited 1,
          {| con := console0;
             stderr := str "error: no staged changes (git diff --staged is empty)" ++ [NL];
             trace := [gitRevParse; gitDiff] |}).
Proof.
  intros Hr Hd Hb. apply TrimSpace_nil_iff in Hb.
  by rewrite main_unfold, Hr, Hd, bool_decide_eq_true_2.
Qed.

Lemma main_nothing_staged_witness :
  main Json.Unmarshal (exampleWorld None [NL] []) noFlags 0 process0 =
    Some (Exited 1,
          {| con := console0;
             stderr := str "error: no staged changes (git diff --staged is empty)" ++ [NL];
             trace := [gitRevParse; gitDiff] |}).
Proof.
  apply (main_nothing_staged Json.Unmarshal (exampleWorld None [NL] []) noFlags 0 [NL]).
  - reflexivity.
  - reflexivity.
  - vm_compute. reflexivity.
Defined.

(** X19.  A request that a run of [main] has posted went out from inside a
    repository, with a staged diff that is not blank and its stat: to the
    URL made of the endpoint, with the model, a schema for between 1 and 3
    items, and the prompt built from that diff and stat. *)
Theorem main_posts_staged_diff
    (Unmarshal : bytes -> suggestionsPayload * option error)
    (w : world) (a : flags) (fuel : nat) (st : status) (p' : process)
    (url : bytes) (req : Req.ollamaChatRequest) (timeout : Z) :
  main Unmarshal w a fuel process0 = Some (st, p') ->
  HttpPost url req timeout ∈ trace p' ->
  revParse w = None /\
  exists diff stat n,
    diffStaged w = (diff, None) /\ diffStat w = (stat, None) /\
    whitespaceOnly diff = false /\
    n = clampCount (countOf a) /\ 1 <= n <= 3 /\
    url = chatURL (endpointOf w a) /\
    req = chatRequest (modelOf w a) n diff stat /\
    timeout = timeoutOf a.
Proof.
  rewrite main_unfold. intros H Hin.
  assert (Hpost : HttpPost url req timeout = postOf w a ->
            forall diff stat, diffStaged w = (diff, None) -> diffStat w = (stat, None) ->
            TrimSpace diff <> [] ->
            exists diff stat n,
              diffStaged w = (diff, None) /\ diffStat w = (stat, None) /\
              whitespaceOnly diff = false /\
              n = clampCount (countOf a) /\ 1 <= n <= 3 /\
              url = chatURL (endpointOf w a) /\
              req = chatRequest (modelOf w a) n diff stat /\
              timeout = timeoutOf a).
  { intros Heq diff stat Hd Hs Hne. inversion Heq; subst.
    exists diff, stat, (clampCount (countOf a)).
    split; [done|]. split; [done|]. split; [by apply not_blank|]. split; [done|].
    split; [rewrite clampCount_spec; lia|]. split; [done|]. split; [|done].
    unfold requestOf. by rewrite Hd, Hs. }
  destruct (revParse w) as [e|].
  { inversion H; subst. simpl in Hin. in_trace Hin. }
  split; [done|].
  destruct (diffStaged w) as [diff [e|]] eqn:Hd.
  { inversion H; subst. simpl in Hin. in_trace Hin. }
  destruct (decide (TrimSpace diff = [])) as [Hb|Hb].
  { rewrite bool_decide_eq_true_2 in H by done.
    inversion H; subst. simpl in Hin. in_trace Hin. }
  rewrite bool_decide_eq_false_2 in H by done.
  destruct (diffStat w) as [stat [e|]] eqn:Hs.
  { inversion H; subst. simpl in Hin. in_trace Hin. }
  cbv zeta in H.
  assert (Hsent : HttpPost url req timeout ∈
            match answerOf w a with
            | MarshalFails _ => [gitRevParse; gitDiff; gitDiffStat]
            | _ => [gitRevParse; gitDiff; gitDiffStat; postOf w a]
            end ->
          HttpPost url req timeout = postOf w a).
  { intros Hx. destruct (answerOf w a); in_trace Hx; done. }
  destruct (mainSuggestions Unmarshal (countOf a) (answerOf w a)) as [msgs|e|why].
  - destruct (chooseMessage (stdin w) fuel msgs console0) as [[[m|e|why] c]|]; [| | |done].
    + destruct (commit w m) as [[out errout] [e|]]; inversion H; subst;
        simpl in Hin; apply elem_of_app in Hin as [Hin|Hin];
        try (in_trace Hin; fail); by eapply Hpost; [apply Hsent|..].
    + inversion H; subst. simpl in Hin. by eapply Hpost; [apply Hsent|..].
    + inversion H; subst. simpl in Hin. by eapply Hpost; [apply Hsent|..].
  - inversion H; subst. simpl in Hin. by eapply Hpost; [apply Hsent|..].
  - inversion H; subst. simpl in Hin. by eapply Hpost; [apply Hsent|..].
Qed.

Lemma main_posts_staged_diff_witness :
  revParse exampleRun = None /\
  exists diff stat n,
    diffStaged exampleRun = (diff, None) /\
    diffStat exampleRun = (stat, None) /\
    whitespaceOnly diff = false /\
    n = clampCount (countOf noFlags) /\ 1 <= n <= 3 /\
    str "http://localhost:11434/api/chat" = chatURL (endpointOf exampleRun noFlags) /\
    chatRequest (str "llama3.1") 3 (str "+line") (str " f | 1 +") =
      chatRequest (modelOf exampleRun noFlags) n diff stat /\
    30000000000 = timeoutOf noFlags.
Proof.
  apply (main_posts_staged_diff Json.Unmarshal exampleRun noFlags 1 (Exited 0)
           exampleEnd).
  - vm_compute. reflexivity.
  - vm_compute. do 3 apply list_elem_of_further. apply list_elem_of_here.
Defined.





(** X22.  A run in which all goes well: in a repository with a staged diff
    that is not blank, when suggestions come back, the user's first line is
    the number of one of them and the commit succeeds, [main] ends with
    status 0 after one read, having run the three [git] commands, the
    request, and [git commit -m] with that suggestion; it prints what the
    commit prints and then "Committed: " with the suggestion. *)
Theorem main_commits_choice
    (Unmarshal : bytes -> suggestionsPayload * option error)
    (w : world) (a : flags) (k : nat) (diff stat : bytes) (msgs : list bytes)
    (j : nat) (m line : bytes) (err : option error) (out errout : bytes) :
  revParse w = None ->
  diffStaged w = (diff, None) ->
  whitespaceOnly diff = false ->
  diffStat w = (stat, None) ->
  mainSuggestions Unmarshal (countOf a) (answerOf w a) = Ok msgs ->
  msgs !! j = Some m ->
  stdin w 0%nat = (line, err) ->
  readFailure err = None ->
  TrimSpace line = Fmt.itoa (Z.of_nat j + 1) ->
  commit w m = (out, errout, None) ->
  exists shown,
    main Unmarshal w a (S k) process0 =
      Some (Exited 0,
            {| con := {| reads := 1;
                         stdout := shown ++ str "> " ++ out ++
                                   str "Committed: " ++ m ++ [NL] |};
               stderr := errout;
               trace := [gitRevParse; gitDiff; gitDiffStat; postOf w a;
                         gitCommitOf m] |}).
Proof.
  intros Hr Hd Hb Hs Hm Hj Hin Hf Ht Hcm.
  destruct (mainSuggestions_Ok_inv _ _ _ _ Hm) as (Hlen & Hwf & Hx).
  set (c2 := Println (str "Choose 1-3 or type 'e' to edit:")
               (printSuggestions 0 msgs (Println (str "Suggestions:") console0))).
  assert (Hr2 : reads c2 = 0%nat).
  { unfold c2. simpl. by rewrite printSuggestions_reads. }
  assert (Hc : chooseMessage (stdin w) (S k) msgs console0 = Some (Ok m, afterRead c2)).
  { unfold chooseMessage. fold c2.
    apply (chooseLoop_select (stdin w) k msgs c2 j m line err); try done; [lia|].
    by rewrite Hr2. }
  exists (stdout c2). rewrite main_unfold, Hr, Hd.
  rewrite bool_decide_eq_false_2
    by (intros Hn; apply TrimSpace_nil_iff in Hn; congruence).
  rewrite Hs. cbv zeta. rewrite Hm, Hc, Hcm, sent_post by done.
  do 2 f_equal. unfold Println, Print, afterRead. cbn [reads stdout app].
  rewrite Hr2. do 2 f_equal. by rewrite <- !app_assoc.
Qed.

Lemma main_commits_choice_witness :
  exists shown,
    main Json.Unmarshal exampleRun noFlags 1 process0 =
      Some (Exited 0,
            {| con := {| reads := 1;
                         stdout := shown ++ str "> " ++ [] ++
                                   str "Committed: " ++ str "fix y" ++ [NL] |};
               stderr := [];
               trace := [gitRevParse; gitDiff; gitDiffStat; postOf exampleRun noFlags;
                         gitCommitOf (str "fix y")] |}).
Proof.
  apply (main_commits_choice Json.Unmarshal exampleRun noFlags 0
           (str "+line") (str " f | 1 +") [str "add x"; str "fix y"] 1 (str "fix y")
           (str "2" ++ [NL]) None [] []).
  - reflexivity.
  - reflexivity.
  - vm_compute. reflexivity.
  - reflexivity.
  - vm_compute. reflexivity.
  - reflexivity.
  - vm_compute. reflexivity.
  - reflexivity.
  - vm_compute. reflexivity.
  - reflexivity.
Defined.

Lemma chooseLoop_blank_forever (stdin : nat -> bytes * option error)
    (fuel : nat) (msgs : list bytes) (c : console) :
  (forall k, (reads c <= k)%nat -> exists line err,
     stdin k = (line, err) /\ readFailure err = None /\ TrimSpace line = []) ->
  chooseLoop stdin fuel msgs c = None.
Proof.
  revert c. induction fuel as [|k IH]; intros c H; [done|].
  rewrite chooseLoop_step.
  destruct (H (reads c) ltac:(lia)) as (line & err & -> & Hf & Ht).
  cbv zeta. rewrite Hf, Ht. simpl.
  apply IH. intros j Hj. apply H. simpl in Hj. lia.
Qed.

(** X23.  At the end of input [main] does not end: in a repository with a
    staged diff that is not blank, once suggestions have come back, a
    standard input that gives nothing but blank lines or [io.EOF] keeps the
    selector reading, and no number of rounds brings the run to an end or
    to a commit. *)
Theorem main_never_ends_at_EOF
    (Unmarshal : bytes -> suggestionsPayload * option error)
    (w : world) (a : flags) (diff stat : bytes) (msgs : list bytes) (fuel : nat) :
  revParse w = None ->
  diffStaged w = (diff, None) ->
  whitespaceOnly diff = false ->
  diffStat w = (stat, None) ->
  mainSuggestions Unmarshal (countOf a) (answerOf w a) = Ok msgs ->
  (forall k, exists line err,
     stdin w k = (line, err) /\ readFailure err = None /\ TrimSpace line = []) ->
  main Unmarshal w a fuel process0 = None.
Proof.
  intros Hr Hd Hb Hs Hm Hin.
  rewrite main_unfold, Hr, Hd.
  rewrite bool_decide_eq_false_2
    by (intros Hn; apply TrimSpace_nil_iff in Hn; congruence).
  rewrite Hs. cbv zeta. rewrite Hm.
  unfold chooseMessage. rewrite chooseLoop_blank_forever; [done|].
  intros k _. apply Hin.
Qed.

Lemma main_never_ends_at_EOF_witness :
  main Json.Unmarshal (exampleWorld None (str "+line") []) noFlags 1000 process0 = None.
Proof.
  apply (main_never_ends_at_EOF Json.Unmarshal (exampleWorld None (str "+line") [])
           noFlags (str "+line") (str " f | 1 +") [str "add x"; str "fix y"] 1000).
  - reflexivity.
  - reflexivity.
  - vm_compute. reflexivity.
  - reflexivity.
  - vm_compute. reflexivity.
  - intros k. exists [], (Some io_EOF). destruct k; repeat split.
Defined.

(** X24.  When the request fails (the body cannot be marshalled, the POST
    fails, the status is 400 or more, the response does not decode, or its
    content does not parse), [main] writes "error: " with the text of that
    error to standard error and exits with status 1; the user is not asked
    and nothing is committed. *)
Theorem main_request_error
    (Unmarshal : bytes -> suggestionsPayload * option error)
    (w : world) (a : flags) (fuel : nat) (diff stat : bytes) (e : error) :
  revParse w = None ->
  diffStaged w = (diff, None) ->
  whitespaceOnly diff = false ->
  diffStat w = (stat, None) ->
  requestSuggestions Unmarshal (clampCount (countOf a)) (answerOf w a) = Err e ->
  main Unmarshal w a fuel process0 =
    Some (Exited 1,
          {| con := console0;
             stderr := str "error: " ++ Error e ++ [NL];
             trace := [gitRevParse; gitDiff; gitDiffStat] ++
                      match answerOf w a with
                      | MarshalFails _ => []
                      | _ => [postOf w a]
                      end |}).
Proof.
  intros Hr Hd Hb Hs He.
  rewrite main_unfold, Hr, Hd.
  rewrite bool_decide_eq_false_2
    by (intros Hn; apply TrimSpace_nil_iff in Hn; congruence).
  rewrite Hs. cbv zeta. unfold mainSuggestions. rewrite He.
  unfold fatal. cbn [con stderr trace app]. by destruct (answerOf w a).
Qed.

Lemma main_request_error_witness :
  main Json.Unmarshal
    (worldWith None (str "+line")
       (Response 404 (str " model not found" ++ [NL]) (inl (json_failure "not read")))
       [])
    noFlags 0 process0 =
    Some (Exited 1,
          {| con := console0;
             stderr := str "error: ollama error 404: model not found" ++ [NL];
             trace := [gitRevParse; gitDiff; gitDiffStat] ++
                      [HttpPost (str "http://localhost:11434/api/chat")
                         (chatRequest (str "llama3.1") 3 (str "+line") (str " f | 1 +"))
                         30000000000] |}).
Proof.
  apply (main_request_error Json.Unmarshal
           (worldWith None (str "+line")
              (Response 404 (str " model not found" ++ [NL])
                 (inl (json_failure "not read")))
              [])
           noFlags 0 (str "+line") (str " f | 1 +")
           (Errorf_status 404 (str "model not found"))).
  - reflexivity.
  - reflexivity.
  - vm_compute. reflexivity.
  - reflexivity.
  - vm_compute. reflexivity.
Defined.

(** X25.  When the request succeeds with no suggestion at all (the entries
    of the JSON payload are all blank), [main] writes
    "error: no suggestions returned" and exits with status 1 after the
    request, without asking the user. *)
Theorem main_no_suggestions
    (Unmarshal : bytes -> suggestionsPayload * option error)
    (w : world) (a : flags) (fuel : nat) (diff stat : bytes) :
  revParse w = None ->
  diffStaged w = (diff, None) ->
  whitespaceOnly diff = false ->
  diffStat w = (stat, None) ->
  requestSuggestions Unmarshal (clampCount (countOf a)) (answerOf w a) = Ok [] ->
  main Unmarshal w a fuel process0 =
    Some (Exited 1,
          {| con := console0;
             stderr := str "error: no suggestions returned" ++ [NL];
             trace := [gitRevParse; gitDiff; gitDiffStat; postOf w a] |}).
Proof.
  intros Hr Hd Hb Hs Hok.
  rewrite main_unfold, Hr, Hd.
  rewrite bool_decide_eq_false_2
    by (intros Hn; apply TrimSpace_nil_iff in Hn; congruence).
  rewrite Hs. cbv zeta. unfold mainSuggestions. rewrite Hok.
  rewrite sent_post; [done|]. intros e Hx. by rewrite Hx in Hok.
Qed.

Lemma main_no_suggestions_witness :
  main Json.Unmarshal
    (worldWith None (str "+line") (answered (jstr "{'messages':['',' ']}")) [])
    noFlags 0 process0 =
    Some (Exited 1,
          {| con := console0;
             stderr := str "error: no suggestions returned" ++ [NL];
             trace := [gitRevParse; gitDiff; gitDiffStat;
                       HttpPost (str "http://localhost:11434/api/chat")
                         (chatRequest (str "llama3.1") 3 (str "+line") (str " f | 1 +"))
                         30000000000] |}).
Proof.
  apply (main_no_suggestions Json.Unmarshal
           (worldWith None (str "+line") (answered (jstr "{'messages':['',' ']}")) [])
           noFlags 0 (str "+line") (str " f | 1 +")).
  - reflexivity.
  - reflexivity.
  - vm_compute. reflexivity.
  - reflexivity.
  - vm_compute. reflexivity.
Defined.
